(** * tesla_powerwall: the [Powerwall] session controller

    A shallow embedding of [tesla_powerwall/__init__.py] (class [Powerwall])
    together with the parts of its collaborators that its behaviour depends
    on: the decoded JSON payloads, [packaging.version] (PEP 440 versions and
    their ordering), Python's [Enum] lookup, the attribute validator and the
    [API] object every operation delegates to. *)

From Stdlib Require Import ZArith QArith Ascii String List Lia Bool.
From Stdlib Require Import DecimalString DecimalPos DecimalN.
From stdpp Require Import base option list strings gmap.

Local Open Scope string_scope.
Local Open Scope list_scope.
Local Set Warnings "-register-all".

(** ** Decoded JSON payloads *)

(** What [json] decoding hands to the library: [None], [bool], [int],
    [float], [str], [list] and [dict] with string keys. *)
Inductive Json : Type :=
| JNull
| JBool (b : bool)
| JInt (z : Z)
| JFloat (q : Q)
| JStr (s : string)
| JArr (l : list Json)
| JObj (m : gmap string Json).

Definition is_None (j : Json) : bool :=
  match j with JNull => true | _ => false end.

(** ** Errors *)

Inductive EnumClass : Type := DeviceType | GridStatus | OperationMode.

(** The exceptions an operation can end with.  The first five are the
    library's own ([error.py]); [ValueError] is what Python's [Enum] raises
    on a value that is no member; [InvalidVersion] is raised by
    [packaging.version.parse]; [TypeError] is Python's, and so is
    [IntMaxStrDigits], the [ValueError] of [int] on a string of more digits
    than the interpreter converts. *)
Inductive Error : Type :=
| MissingAttributeError (attr : string) (url : option string)
| AccessDeniedError
| APIError (status : Z) (body : Json)
| PowerwallUnreachableError
| ValueError (cls : EnumClass) (value : Json)
| InvalidVersion (vers : string)
| TypeError
| IntMaxStrDigits.

Inductive Result (X : Type) : Type :=
| Ok (x : X)
| Err (e : Error).
Arguments Ok {X} x.
Arguments Err {X} e.

(** ** [packaging.version]

    [version.parse] and the ordering of [Version] objects, after PEP 440 as
    [packaging] (release 22 and later, on CPython 3.11 and later)
    implements it: [parse(s)] is [Version(s)], which matches [s] against
    the anchored, case-insensitive pattern

      \s* v? (epoch !)? N(.N)* pre? post? dev? (+local)? \s*

    and raises [InvalidVersion] when there is no match; the numbers of a
    match are converted with [int].  Inputs are ASCII
    text.  Every optional group of the pattern is greedy and its first
    character decides whether it can match, so one left-to-right pass takes
    the same match as the backtracking engine. *)
Module version.

Inductive PreLetter : Type := pre_a | pre_b | pre_rc.

Inductive LocalPart : Type :=
| LocalInt (n : N)
| LocalStr (s : string).

(** [packaging.version._Version] *)
Record Version : Type := mkVersion {
  epoch : N;
  release : list N;
  pre : option (PreLetter * N);
  post : option N;
  dev : option N;
  local : option (list LocalPart)
}.

(** *** Characters *)

Definition code (c : ascii) : N := N_of_ascii c.

Definition is_digit (c : ascii) : bool := (48 <=? code c)%N && (code c <=? 57)%N.
Definition digit_val (c : ascii) : N := (code c - 48)%N.

Definition is_upper (c : ascii) : bool := (65 <=? code c)%N && (code c <=? 90)%N.
Definition is_lower (c : ascii) : bool := (97 <=? code c)%N && (code c <=? 122)%N.

Definition lower (c : ascii) : ascii :=
  if is_upper c then ascii_of_N (code c + 32) else c.

(** [\s] on ASCII text: tab, newline, vertical tab, form feed, carriage
    return, the four information separators and the space. *)
Definition is_space (c : ascii) : bool :=
  ((9 <=? code c)%N && (code c <=? 13)%N)
  || ((28 <=? code c)%N && (code c <=? 32)%N).

(** [[-_\.]] *)
Definition is_sep (c : ascii) : bool :=
  (code c =? 45)%N || (code c =? 95)%N || (code c =? 46)%N.

(** [[a-z0-9]] under [re.IGNORECASE] *)
Definition is_alnum (c : ascii) : bool := is_digit c || is_lower c || is_upper c.

Fixpoint lower_string (s : string) : string :=
  match s with
  | EmptyString => EmptyString
  | String c r => String (lower c) (lower_string r)
  end.

Fixpoint all_chars (p : ascii -> bool) (s : string) : bool :=
  match s with
  | EmptyString => true
  | String c r => p c && all_chars p r
  end.

(** The longest prefix of characters satisfying [p], and what follows it. *)
Fixpoint span (p : ascii -> bool) (s : string) : string * string :=
  match s with
  | EmptyString => (EmptyString, EmptyString)
  | String c r =>
      if p c then let '(a, b) := span p r in (String c a, b)
      else (EmptyString, s)
  end.

(** The value of a string of decimal digits. *)
Fixpoint int_acc (acc : N) (s : string) : N :=
  match s with
  | EmptyString => acc
  | String c r => int_acc (acc * 10 + digit_val c)%N r
  end.

(** [sys.get_int_max_str_digits()], at its default. *)
Definition int_max_str_digits : N := 4300.

(** [int(digits)] on a non-empty string of decimal digits, in CPython 3.11
    and later: a string of more digits than the limit, leading zeros
    counted, is refused with [ValueError]; [packaging] does not catch it. *)
Definition int (digits : string) : Result N :=
  if (N.of_nat (String.length digits) <=? int_max_str_digits)%N
  then Ok (int_acc 0 digits)
  else Err IntMaxStrDigits.

(** *** Pieces of the pattern

    Each piece takes what its part of the pattern matches at the head of
    the string and returns the groups it captures, as text, with the rest
    of the string. *)

(** [\s*] at the start *)
Fixpoint lstrip (s : string) : string :=
  match s with
  | String c r => if is_space c then lstrip r else s
  | EmptyString => EmptyString
  end.

(** [v?] *)
Definition opt_v (s : string) : string :=
  match s with
  | String c r => if (code (lower c) =? 118)%N then r else s
  | EmptyString => s
  end.

(** [[-_\.]?] *)
Definition opt_sep (s : string) : string :=
  match s with
  | String c r => if is_sep c then r else s
  | EmptyString => s
  end.

(** [([0-9]+)?] *)
Definition opt_number (s : string) : option string * string :=
  match span is_digit s with
  | (EmptyString, _) => (None, s)
  | (ds, r) => (Some ds, r)
  end.

(** [(?:([0-9]+)!)?] *)
Definition opt_epoch (s : string) : option string * string :=
  match span is_digit s with
  | (EmptyString, _) => (None, s)
  | (ds, String c r) => if (code c =? 33)%N then (Some ds, r) else (None, s)
  | (_, EmptyString) => (None, s)
  end.

(** A literal word of the pattern at the head of [s], ignoring case. *)
Fixpoint eat_word (w s : string) : option string :=
  match w with
  | EmptyString => Some s
  | String a w' =>
      match s with
      | String c r => if Ascii.eqb a (lower c) then eat_word w' r else None
      | EmptyString => None
      end
  end.

(** An alternation [w1|w2|...]: the first word that matches.  The word
    returned is the one of the pattern, that is, the matched text in lower
    case. *)
Fixpoint eat_alt (ws : list string) (s : string) : option (string * string) :=
  match ws with
  | [] => None
  | w :: ws' =>
      match eat_word w s with
      | Some r => Some (w, r)
      | None => eat_alt ws' s
      end
  end.

(** [[-_\.]? (w1|w2|...) [-_\.]? ([0-9]+)?]: the letter and the number *)
Definition letter_group (ws : list string) (s : string)
  : option (string * option string * string) :=
  match eat_alt ws (opt_sep s) with
  | Some (l, r) => let '(n, r') := opt_number (opt_sep r) in Some (l, n, r')
  | None => None
  end.

(** [[0-9]+(?:\.[0-9]+)*], split at the dots, after the first digit of a
    component has been read: [cur] is the component so far, [acc] the
    finished components in reverse. *)
Fixpoint release_loop (acc : list string) (cur : string) (s : string)
  : list string * string :=
  match s with
  | EmptyString => (rev (cur :: acc), EmptyString)
  | String c r =>
      if is_digit c then release_loop acc (String.append cur (String c EmptyString)) r
      else if (code c =? 46)%N then
        match r with
        | String d r' =>
            if is_digit d then release_loop (cur :: acc) (String d EmptyString) r'
            else (rev (cur :: acc), s)
        | EmptyString => (rev (cur :: acc), s)
        end
      else (rev (cur :: acc), s)
  end.

Definition release_segment (s : string) : option (list string * string) :=
  match s with
  | String c r =>
      if is_digit c then Some (release_loop [] (String c EmptyString) r) else None
  | EmptyString => None
  end.

(** The groups of a match: [epoch], [release] split at the dots, [pre_l],
    [pre_n], [post_l], [post_n1], [post_n2], [dev_l], [dev_n], and [local]
    split at its separators. *)
Record Match : Type := mkMatch {
  g_epoch : option string;
  g_release : list string;
  g_pre_l : option string;
  g_pre_n : option string;
  g_post_l : option string;
  g_post_n1 : option string;
  g_post_n2 : option string;
  g_dev_l : option string;
  g_dev_n : option string;
  g_local : option (list string)
}.

(** The pre-release group *)
Definition opt_pre (s : string) : option string * option string * string :=
  match letter_group ["alpha"; "a"; "beta"; "b"; "preview"; "pre"; "c"; "rc"] s with
  | Some (l, n, r) => (Some l, n, r)
  | None => (None, None, s)
  end.

(** The post-release group: [-N], or a spelled-out [post], [rev] or [r]. *)
Definition opt_post (s : string)
  : option string * option string * option string * string :=
  let spelled :=
    match letter_group ["post"; "rev"; "r"] s with
    | Some (l, n, r) => (Some l, None, n, r)
    | None => (None, None, None, s)
    end in
  match s with
  | String c r =>
      if (code c =? 45)%N then
        match opt_number r with
        | (Some n, r') => (None, Some n, None, r')
        | (None, _) => spelled
        end
      else spelled
  | EmptyString => spelled
  end.

Definition opt_dev (s : string) : option string * option string * string :=
  match letter_group ["dev"] s with
  | Some (l, n, r) => (Some l, n, r)
  | None => (None, None, s)
  end.

(** [_local_version_separators.split] *)
Fixpoint split_sep (cur : string) (s : string) : list string :=
  match s with
  | EmptyString => [cur]
  | String c r =>
      if is_sep c then cur :: split_sep EmptyString r
      else split_sep (String.append cur (String c EmptyString)) r
  end.

Definition nonempty (s : string) : bool :=
  match s with EmptyString => false | _ => true end.

(** The local version: a [+], then one or more runs of [a-z0-9] joined by
    single separators.  [None] when a [+] is there and no well-formed local
    version follows it, in which case nothing else of the pattern can match
    the [+] either. *)
Definition opt_local (s : string) : option (option (list string) * string) :=
  match s with
  | String c r =>
      if (code c =? 43)%N then
        let '(body, rest) := span (fun x => is_alnum x || is_sep x) r in
        let parts := split_sep EmptyString body in
        if forallb nonempty parts then Some (Some parts, rest)
        else None
      else Some (None, s)
  | EmptyString => Some (None, s)
  end.

(** [Version._regex.search]: the groups, or [None] when the string does not
    match. *)
Definition search (vers : string) : option Match :=
  let s := opt_v (lstrip vers) in
  let '(e, s) := opt_epoch s in
  match release_segment s with
  | None => None
  | Some (rel, s) =>
      let '(pre_l, pre_n, s) := opt_pre s in
      let '(post_l, post_n1, post_n2, s) := opt_post s in
      let '(dev_l, dev_n, s) := opt_dev s in
      match opt_local s with
      | None => None
      | Some (l, s) =>
          if all_chars is_space s
          then Some (mkMatch e rel pre_l pre_n post_l post_n1 post_n2 dev_l dev_n l)
          else None
      end
  end.

(** Sequencing of conversions that can raise. *)
Definition and_then {X Y} (r : Result X) (k : X -> Result Y) : Result Y :=
  match r with
  | Ok x => k x
  | Err e => Err e
  end.

(** [tuple(f(i) for i in l)] *)
Fixpoint each {X Y} (f : X -> Result Y) (l : list X) : Result (list Y) :=
  match l with
  | [] => Ok []
  | x :: l' => and_then (f x) (fun y => and_then (each f l') (fun ys => Ok (y :: ys)))
  end.

(** [_parse_letter_version]: the normalised spelling of the letter with the
    number, 0 when there is none; a number without a letter is a post
    release. *)
Definition _parse_letter_version (letter number : option string)
  : Result (option (string * N)) :=
  match letter with
  | Some l =>
      let l :=
        if String.eqb l "alpha" then "a"
        else if String.eqb l "beta" then "b"
        else if String.eqb l "c" || String.eqb l "pre" || String.eqb l "preview" then "rc"
        else if String.eqb l "rev" || String.eqb l "r" then "post"
        else l in
      and_then (match number with Some n => int n | None => Ok 0%N end)
               (fun n => Ok (Some (l, n)))
  | None =>
      match number with
      | Some n => and_then (int n) (fun n => Ok (Some ("post", n)))
      | None => Ok None
      end
  end.

(** The pre-release letters as the record holds them. *)
Definition pre_letter (l : string) : PreLetter :=
  if String.eqb l "a" then pre_a
  else if String.eqb l "b" then pre_b
  else pre_rc.

(** [_parse_local_version]: digit-only parts are integers, the others are
    lower-cased strings. *)
Definition local_part (p : string) : Result LocalPart :=
  if all_chars is_digit p then and_then (int p) (fun n => Ok (LocalInt n))
  else Ok (LocalStr (lower_string p)).

Definition _parse_local_version (local : option (list string))
  : Result (option (list LocalPart)) :=
  match local with
  | Some parts => and_then (each local_part parts) (fun l => Ok (Some l))
  | None => Ok None
  end.

(** [post_n1 or post_n2] *)
Definition first_of (a b : option string) : option string :=
  match a with Some _ => a | None => b end.

(** [Version.__init__]: [InvalidVersion] when the string does not match,
    and otherwise the fields converted from the groups in the order of the
    source, each [int] of which can raise. *)
Definition Version_init (vers : string) : Result Version :=
  match search vers with
  | None => Err (InvalidVersion vers)
  | Some m =>
      and_then (match g_epoch m with Some e => int e | None => Ok 0%N end) (fun e =>
      and_then (each int (g_release m)) (fun rel =>
      and_then (_parse_letter_version (g_pre_l m) (g_pre_n m)) (fun p =>
      and_then (_parse_letter_version (g_post_l m)
                  (first_of (g_post_n1 m) (g_post_n2 m))) (fun po =>
      and_then (_parse_letter_version (g_dev_l m) (g_dev_n m)) (fun d =>
      and_then (_parse_local_version (g_local m)) (fun l =>
      Ok (mkVersion e rel
            (match p with Some (l, n) => Some (pre_letter l, n) | None => None end)
            (match po with Some (_, n) => Some n | None => None end)
            (match d with Some (_, n) => Some n | None => None end)
            l)))))))
  end.

(** [version.parse] *)
Definition parse (vers : string) : Result Version := Version_init vers.

(** *** Ordering: [_cmpkey] and the comparison of the keys as tuples *)

Inductive Inf (X : Type) : Type :=
| NegativeInfinity
| Finite (x : X)
| Infinity.
Arguments NegativeInfinity {X}.
Arguments Finite {X} x.
Arguments Infinity {X}.

Definition cmp_inf {X} (cmp : X -> X -> comparison) (a b : Inf X) : comparison :=
  match a, b with
  | NegativeInfinity, NegativeInfinity => Eq
  | NegativeInfinity, _ => Lt
  | _, NegativeInfinity => Gt
  | Infinity, Infinity => Eq
  | Infinity, _ => Gt
  | _, Infinity => Lt
  | Finite x, Finite y => cmp x y
  end.

(** First difference decides. *)
Definition lex (c1 c2 : comparison) : comparison :=
  match c1 with Eq => c2 | _ => c1 end.

(** Python's comparison of two tuples of any length. *)
Fixpoint cmp_tuple {X} (cmp : X -> X -> comparison) (a b : list X) : comparison :=
  match a, b with
  | [], [] => Eq
  | [], _ :: _ => Lt
  | _ :: _, [] => Gt
  | x :: a', y :: b' => lex (cmp x y) (cmp_tuple cmp a' b')
  end.

Definition cmp_pair {X Y} (cx : X -> X -> comparison) (cy : Y -> Y -> comparison)
  (a b : X * Y) : comparison :=
  lex (cx (fst a) (fst b)) (cy (snd a) (snd b)).

(** The normalised spellings compare as the strings "a" < "b" < "rc". *)
Definition pre_rank (l : PreLetter) : N :=
  match l with pre_a => 0 | pre_b => 1 | pre_rc => 2 end%N.

Definition cmp_letter (a b : PreLetter) : comparison :=
  N.compare (pre_rank a) (pre_rank b).

Record CmpKey : Type := mkKey {
  key_epoch : N;
  key_release : list N;
  key_pre : Inf (PreLetter * N);
  key_post : Inf N;
  key_dev : Inf N;
  key_local : Inf (list (Inf N * string))
}.

(** [reversed(dropwhile(lambda x: x == 0, reversed(release)))] *)
Fixpoint drop_zeros (l : list N) : list N :=
  match l with
  | 0%N :: l' => drop_zeros l'
  | _ => l
  end.

Definition strip_trailing_zeros (l : list N) : list N := rev (drop_zeros (rev l)).

Definition local_key (p : LocalPart) : Inf N * string :=
  match p with
  | LocalInt i => (Finite i, "")
  | LocalStr s => (NegativeInfinity, s)
  end.

Definition _cmpkey (v : Version) : CmpKey :=
  {| key_epoch := epoch v;
     key_release := strip_trailing_zeros (release v);
     key_pre :=
       match pre v, post v, dev v with
       | None, None, Some _ => NegativeInfinity
       | None, _, _ => Infinity
       | Some p, _, _ => Finite p
       end;
     key_post := match post v with None => NegativeInfinity | Some n => Finite n end;
     key_dev := match dev v with None => Infinity | Some n => Finite n end;
     key_local :=
       match local v with
       | None => NegativeInfinity
       | Some l => Finite (map local_key l)
       end |}.

Definition cmp_key (a b : CmpKey) : comparison :=
  lex (N.compare (key_epoch a) (key_epoch b))
  (lex (cmp_tuple N.compare (key_release a) (key_release b))
  (lex (cmp_inf (cmp_pair cmp_letter N.compare) (key_pre a) (key_pre b))
  (lex (cmp_inf N.compare (key_post a) (key_post b))
  (lex (cmp_inf N.compare (key_dev a) (key_dev b))
       (cmp_inf (cmp_tuple (cmp_pair (cmp_inf N.compare) String.compare))
                (key_local a) (key_local b)))))).

Definition compare (a b : Version) : comparison := cmp_key (_cmpkey a) (_cmpkey b).

(** [Version.__ge__] *)
Definition ge (a b : Version) : bool :=
  match compare a b with Lt => false | _ => true end.

(** A final release [major.minor.patch]. *)
Definition final (major minor patch : N) : Version :=
  mkVersion 0 [major; minor; patch] None None None None.

End version.

(** ** [const.py]

    The module is not among the sources.  What [__init__.py] uses of it is
    taken as given: the [User] enumeration with its member [CUSTOMER] and
    the [value] of each member, and for each enumeration a response field is
    turned into, the closed set of the values of its members (strings). *)
Class Const : Type := {
  User : Type;
  CUSTOMER : User;
  User_value : User -> string;
  members : EnumClass -> list string
}.

(** A member of [DeviceType], [GridStatus] or [OperationMode], known by its
    class and its value. *)
Record EnumMember : Type := mkMember {
  enum_class : EnumClass;
  enum_value : string
}.

(** [cls(value)], Python's lookup of an [Enum] member by value: the member
    with that value, or [ValueError] when there is none. *)
Definition Enum_call `{Const} (cls : EnumClass) (value : Json) : Result EnumMember :=
  match value with
  | JStr s =>
      if bool_decide (s ∈ members cls) then Ok (mkMember cls s)
      else Err (ValueError cls value)
  | _ => Err (ValueError cls value)
  end.

(** ** [helpers.py] *)

(** Modelled from the spec: [helpers.assert_attribute] is not among the
    sources.  The attribute validator looks the key up; when the container is
    not a mapping, or the key is absent, or present but null, it fails with
    [MissingAttributeError] carrying the key and the category label;
    otherwise it returns the value unmodified.  The label is optional, as the
    two-argument call in [get_serial_numbers] shows. *)
Definition assert_attribute (response : Json) (attr : string) (url : option string)
  : Result Json :=
  match response with
  | JObj m =>
      match m !! attr with
      | Some value =>
          if is_None value then Err (MissingAttributeError attr url) else Ok value
      | None => Err (MissingAttributeError attr url)
      end
  | _ => Err (MissingAttributeError attr url)
  end.

(** ** [responses.py] *)

Inductive ResponseClass : Type :=
| LoginResponse | Meter | MetersAggregates | PowerwallStatus | SiteInfo
| SiteMaster | Solar.

(** Modelled from the spec: [responses.py] is not among the sources.  A
    response model wraps a raw mapping and exposes typed accessors, each of
    which delegates to the attribute validator. *)
Record Response : Type := mkResponse {
  response_class : ResponseClass;
  json_response : Json
}.

(** Modelled from the spec: the [device_type] accessor of [PowerwallStatus]
    validates the [device_type] field of the status response and has the
    return type of the other path of [get_device_type], a [DeviceType].  The
    spec fixes no category label for accessors. *)
Definition PowerwallStatus_device_type `{Const} (r : Response) : Result EnumMember :=
  match assert_attribute (json_response r) "device_type" None with
  | Ok v => Enum_call DeviceType v
  | Err e => Err e
  end.

(** ** [api.py]

    The module is not among the sources.  [Powerwall] only calls methods of
    its [API] object; each call either returns the decoded body or raises,
    and may change the object (the authentication cookie of its HTTP
    session). *)
Module API.

Inductive Call : Type :=
| login (user email password : string) (force_sm_off : bool)
| logout
| get_sitemater_run
| get_sitemaster_stop
| get_system_status_soe
| get_sitemaster
| get_meters_aggregates
| get_system_status_grid_status
| get_site_info
| post_site_info_site_name (body : Json)
| get_status
| get_device_type
| get_powerwalls
| get_operation
| get_solars
| get_config.

End API.

(** The interface of the [API] object over its state [A]: its constructor
    and what a method call returns or raises, together with the object after
    the call. *)
Class API (A : Type) : Type := {
  API_init : string -> Z -> option nat -> bool -> bool -> A;
  API_call : API.Call -> A -> Result Json * A
}.

(** An [API] object that remembers the calls made on it, oldest first. *)
Definition Traced (A : Type) : Type := (A * list API.Call)%type.

#[global] Instance Traced_API {A} `{API A} : API (Traced A) := {
  API_init e t h v d := (API_init e t h v d, []);
  API_call c a := let '(r, a') := API_call c (fst a) in (r, (a', snd a ++ [c]))
}.

(** ** [class Powerwall] *)

(** What [self._pin_version] can hold besides [None]: the [str] the
    constructor was given, or the [Version] that [pin_version] parsed. *)
Inductive Pin : Type :=
| PinStr (s : string)
| PinVersion (v : version.Version).

Record Powerwall (A : Type) : Type := mkPowerwall {
  _pin_version : option Pin;
  _api : A
}.
Arguments mkPowerwall {A} _ _.
Arguments _pin_version {A} _.
Arguments _api {A} _.

(** [pin >= threshold] for a pin that is not [None].  A [str] and a
    [Version] do not compare: [str.__ge__] and the reflected
    [Version.__le__] both answer [NotImplemented], and Python raises
    [TypeError]. *)
Definition py_ge (pin : Pin) (threshold : version.Version) : Result bool :=
  match pin with
  | PinVersion v => Ok (version.ge v threshold)
  | PinStr _ => Err TypeError
  end.

(** [version.parse(vers)] for whatever object [vers] is: the pattern match
    raises [TypeError] on anything but a [str]. *)
Definition parse_object (vers : Json) : Result version.Version :=
  match vers with
  | JStr s => version.parse s
  | _ => Err TypeError
  end.

(** What a [for] loop or comprehension iterates over: the items of a
    [list], the keys of a [dict], the characters of a [str]; other decoded
    values are not iterable. *)
Definition py_iter (x : Json) : Result (list Json) :=
  match x with
  | JArr l => Ok l
  | JObj m => Ok (map (fun kv => JStr (fst kv)) (map_to_list m))
  | JStr s => Ok (map (fun c => JStr (String c EmptyString)) (list_ascii_of_string s))
  | _ => Err TypeError
  end.

Section Powerwall.
Context `{Const} {A : Type} `{API A}.

(** A method of [Powerwall]: run on the object, it returns or raises, and
    leaves the object as the statements executed so far have made it. *)
Definition Method (X : Type) : Type := Powerwall A -> Result X * Powerwall A.
Local Abbreviation M := Method.

Definition ret {X} (x : X) : M X := fun self => (Ok x, self).

Definition raise {X} (e : Error) : M X := fun self => (Err e, self).

Definition bind {X Y} (m : M X) (k : X -> M Y) : M Y := fun self =>
  match m self with
  | (Ok x, self') => k x self'
  | (Err e, self') => (Err e, self')
  end.

Definition lift {X} (r : Result X) : M X := fun self => (r, self).

(** [self._api.method(...)] *)
Definition api (c : API.Call) : M Json := fun self =>
  let '(r, a) := API_call c (_api self) in (r, mkPowerwall (_pin_version self) a).

(** [self._pin_version] and [self._pin_version = p] *)
Definition read_pin : M (option Pin) := fun self => (Ok (_pin_version self), self).
Definition write_pin (p : option Pin) : M unit := fun self =>
  (Ok tt, mkPowerwall p (_api self)).

Fixpoint for_each {X Y} (f : X -> M Y) (l : list X) : M (list Y) :=
  match l with
  | [] => ret []
  | x :: l' => bind (f x) (fun y => bind (for_each f l') (fun ys => ret (y :: ys)))
  end.

End Powerwall.
Arguments Method : clear implicits.

Notation "x <- m ;; k" := (bind m (fun x => k))
  (at level 100, m at next level, right associativity).
Notation "m ;; k" := (bind m (fun _ => k))
  (at level 100, right associativity).

Section Methods.
Context `{Const} {A : Type} `{API A}.
Local Abbreviation M := (Method A).

(** [Powerwall(endpoint, timeout, http_session, verify_ssl,
    disable_insecure_warning, pin_version)]; the defaults of the optional
    arguments are 10, [None], [False], [True] and [None]. *)
Definition __init__ (endpoint : string) (timeout : Z) (http_session : option nat)
  (verify_ssl disable_insecure_warning : bool) (pin_version : option string)
  : Powerwall A :=
  mkPowerwall
    (PinStr <$> pin_version)
    (API_init endpoint timeout http_session verify_ssl disable_insecure_warning).

Definition login_as (user : User + string) (email password : string)
  (force_sm_off : bool) : M Response :=
  let user := match user with inl u => User_value u | inr s => s end in
  response <- api (API.login user email password force_sm_off) ;;
  ret (mkResponse LoginResponse response).

Definition login (email password : string) (force_sm_off : bool) : M Response :=
  login_as (inl CUSTOMER) email password force_sm_off.

Definition logout : M unit :=
  api API.logout ;; ret tt.

Definition run : M unit :=
  api API.get_sitemater_run ;; ret tt.

Definition stop : M unit :=
  api API.get_sitemaster_stop ;; ret tt.

Definition get_charge : M Json :=
  r <- api API.get_system_status_soe ;;
  lift (assert_attribute r "percentage" (Some "soe")).

Definition get_sitemaster : M Response :=
  r <- api API.get_sitemaster ;; ret (mkResponse SiteMaster r).

Definition get_meters : M Response :=
  r <- api API.get_meters_aggregates ;; ret (mkResponse MetersAggregates r).

Definition get_grid_status : M EnumMember :=
  r <- api API.get_system_status_grid_status ;;
  status <- lift (assert_attribute r "grid_status" (Some "grid_status")) ;;
  lift (Enum_call GridStatus status).

Definition is_grid_services_active : M Json :=
  r <- api API.get_system_status_grid_status ;;
  lift (assert_attribute r "grid_services_active" (Some "grid_status")).

Definition get_site_info : M Response :=
  r <- api API.get_site_info ;; ret (mkResponse SiteInfo r).

Definition set_site_name (site_name : string) : M Json :=
  api (API.post_site_info_site_name (JObj {[ "site_name" := JStr site_name ]})).

Definition get_status : M Response :=
  r <- api API.get_status ;; ret (mkResponse PowerwallStatus r).

Definition get_device_type : M EnumMember :=
  pin <- read_pin ;;
  newer <- match pin with
           | None => ret true
           | Some p =>
               threshold <- lift (version.parse "1.46.0") ;;
               lift (py_ge p threshold)
           end ;;
  if (newer : bool) then
    status <- get_status ;;
    lift (PowerwallStatus_device_type status)
  else
    r <- api API.get_device_type ;;
    device_type <- lift (assert_attribute r "device_type" (Some "device_type")) ;;
    lift (Enum_call DeviceType device_type).

Definition get_serial_numbers : M (list Json) :=
  r <- api API.get_powerwalls ;;
  powerwalls <- lift (assert_attribute r "powerwalls" (Some "powerwalls")) ;;
  items <- lift (py_iter powerwalls) ;;
  for_each (fun powerwall => lift (assert_attribute powerwall "PackageSerialNumber" None))
           items.

Definition get_operation_mode : M EnumMember :=
  r <- api API.get_operation ;;
  operation_mode <- lift (assert_attribute r "real_mode" (Some "operation")) ;;
  lift (Enum_call OperationMode operation_mode).

Definition get_backup_reserved_percentage : M Json :=
  r <- api API.get_operation ;;
  lift (assert_attribute r "backup_reserved_percent" (Some "operation")).

Definition get_solars : M (list Response) :=
  r <- api API.get_solars ;;
  items <- lift (py_iter r) ;;
  for_each (fun solar => ret (mkResponse Solar solar)) items.

Definition get_vin : M Json :=
  r <- api API.get_config ;;
  lift (assert_attribute r "vin" (Some "config")).

Definition get_version : M Json :=
  r <- api API.get_status ;;
  lift (assert_attribute r "version" (Some "status")).

(** [pin_version(vers)] for whatever object [vers] is; the assignment
    happens only after [version.parse] has returned. *)
Definition pin_version_object (vers : Json) : M unit :=
  v <- lift (parse_object vers) ;;
  write_pin (Some (PinVersion v)).

Definition pin_version (vers : string) : M unit :=
  pin_version_object (JStr vers).

Definition detect_and_pin_version : M (option Pin) :=
  vers <- get_version ;;
  pin_version_object vers ;;
  read_pin.

Definition get_pinned_version : M (option Pin) := read_pin.

Definition get_api : M A := fun self => (Ok (_api self), self).

End Methods.

(** The object after [n] successive invocations of a method, whatever each
    of them returned or raised. *)
Fixpoint invocations {A X} (n : nat) (m : Method A X) (self : Powerwall A)
  : Powerwall A :=
  match n with
  | O => self
  | S k => invocations k m (snd (m self))
  end.

(** A method that leaves the pin as it found it, on every object and whether
    it returns or raises. *)
Definition keeps_pin {A X} (m : Method A X) : Prop :=
  forall self, _pin_version (snd (m self)) = _pin_version self.

(** The calls a traced [API] object has received. *)
Definition trace_of {A} (self : Powerwall (Traced A)) : list API.Call :=
  snd (_api self).

(** The public operations that are neither the constructor nor one of the
    two pinning operations, and the object each leaves behind. *)
Section Operations.
Context `{Const} {A : Type} `{API A}.

Inductive Op : Type :=
| op_login (email password : string) (force_sm_off : bool)
| op_login_as (user : User + string) (email password : string) (force_sm_off : bool)
| op_logout
| op_run
| op_stop
| op_get_charge
| op_get_sitemaster
| op_get_meters
| op_get_grid_status
| op_is_grid_services_active
| op_get_site_info
| op_set_site_name (site_name : string)
| op_get_status
| op_get_device_type
| op_get_serial_numbers
| op_get_operation_mode
| op_get_backup_reserved_percentage
| op_get_solars
| op_get_vin
| op_get_version
| op_get_pinned_version
| op_get_api.

Definition after (o : Op) (self : Powerwall A) : Powerwall A :=
  match o with
  | op_login e p f => snd (login e p f self)
  | op_login_as u e p f => snd (login_as u e p f self)
  | op_logout => snd (logout self)
  | op_run => snd (run self)
  | op_stop => snd (stop self)
  | op_get_charge => snd (get_charge self)
  | op_get_sitemaster => snd (get_sitemaster self)
  | op_get_meters => snd (get_meters self)
  | op_get_grid_status => snd (get_grid_status self)
  | op_is_grid_services_active => snd (is_grid_services_active self)
  | op_get_site_info => snd (get_site_info self)
  | op_set_site_name n => snd (set_site_name n self)
  | op_get_status => snd (get_status self)
  | op_get_device_type => snd (get_device_type self)
  | op_get_serial_numbers => snd (get_serial_numbers self)
  | op_get_operation_mode => snd (get_operation_mode self)
  | op_get_backup_reserved_percentage => snd (get_backup_reserved_percentage self)
  | op_get_solars => snd (get_solars self)
  | op_get_vin => snd (get_vin self)
  | op_get_version => snd (get_version self)
  | op_get_pinned_version => snd (get_pinned_version self)
  | op_get_api => snd (get_api self)
  end.

(** The three reads whose field is turned into an enumeration member by the
    code of [__init__.py] itself. *)
Inductive EnumRead : Type := read_grid_status | read_operation_mode | read_device_type.

Definition enum_read (r : EnumRead) : Method A EnumMember :=
  match r with
  | read_grid_status => get_grid_status
  | read_operation_mode => get_operation_mode
  | read_device_type => get_device_type
  end.

Definition enum_read_call (r : EnumRead) : API.Call :=
  match r with
  | read_grid_status => API.get_system_status_grid_status
  | read_operation_mode => API.get_operation
  | read_device_type => API.get_device_type
  end.

Definition enum_read_field (r : EnumRead) : string :=
  match r with
  | read_grid_status => "grid_status"
  | read_operation_mode => "real_mode"
  | read_device_type => "device_type"
  end.

Definition enum_read_class (r : EnumRead) : EnumClass :=
  match r with
  | read_grid_status => GridStatus
  | read_operation_mode => OperationMode
  | read_device_type => DeviceType
  end.

End Operations.
Arguments Op {_} : assert.

(** [get_device_type] reaches its second branch: a parsed pin below the
    threshold is set. *)
Definition pinned_below_threshold {A} (self : Powerwall A) : Prop :=
  exists v, _pin_version self = Some (PinVersion v)
            /\ version.ge v (version.final 1 46 0) = false.

(** What a read of an enumeration field needs of the object: the device-type
    read is the one behind the version gate. *)
Definition enum_read_ready {A} (r : EnumRead) (self : Powerwall A) : Prop :=
  match r with
  | read_device_type => pinned_below_threshold self
  | _ => True
  end.

(** The request [get_device_type] issues for a pin that is [None] or a
    parsed version. *)
Definition device_type_request (pin : option version.Version) : API.Call :=
  match pin with
  | None => API.get_status
  | Some v =>
      if version.ge v (version.final 1 46 0) then API.get_status
      else API.get_device_type
  end.

(** Major, then minor, then patch. *)
Definition triple_le (a b : N * N * N) : Prop :=
  let '(a1, a2, a3) := a in
  let '(b1, b2, b3) := b in
  (a1 < b1 \/ (a1 = b1 /\ (a2 < b2 \/ (a2 = b2 /\ a3 <= b3))))%N.

(** The reading of the version gate under which [get_device_type] without a
    pin probes the firmware version and chooses its path from what the
    device reports: when the status response reports a version below the
    threshold, the last request issued is the one to the dedicated
    device-type endpoint. *)
Definition unpinned_path_follows_probe : Prop :=
  forall (C : Const) (A : Type) (I : API A) (self : Powerwall (Traced A))
         (m : gmap string Json) (V : string) (P : version.Version) (a' : A),
    _pin_version self = None ->
    API_call API.get_status (fst (_api self)) = (Ok (JObj m), a') ->
    m !! "version" = Some (JStr V) ->
    version.parse V = Ok P ->
    version.ge P (version.final 1 46 0) = false ->
    last (trace_of (snd (get_device_type self))) = Some API.get_device_type.

(** ** The [API] object as the spec describes it *)
Module SpecAPI.

(** What the device answers to a request: success with a decoded body, a
    refusal because the session is not (or no longer) authenticated or the
    credentials are wrong, or another error status with its body. *)
Inductive Reply : Type :=
| Success (body : Json)
| Denied
| Failed (status : Z) (body : Json).

(** The transport with the device behind it: the reply to a request sent
    with or without the authentication cookie, or [None] when the connection
    cannot be established or times out. *)
Record Device : Type := mkDevice {
  send : bool -> API.Call -> option Reply
}.

(** The [API] object holds the HTTP session, of which the authentication
    cookie is what matters here. *)
Record State : Type := mkState { authenticated : bool }.

(** Modelled from the spec: [api.py] is not among the sources.  Every method
    is one request.  A connection failure surfaces as
    [PowerwallUnreachableError], a refusal as [AccessDeniedError], another
    error status as [APIError] with the status and the body.  A successful
    login sets the cookie.  Logout invalidates the session and completes
    when the device answers success or the benign not-logged-in refusal. *)
Definition call (d : Device) (c : API.Call) (a : State) : Result Json * State :=
  match send d (authenticated a) c with
  | None => (Err PowerwallUnreachableError, a)
  | Some reply =>
      match c, reply with
      | API.logout, (Success _ | Denied) => (Ok JNull, mkState false)
      | API.login _ _ _ _, Success body => (Ok body, mkState true)
      | _, Success body => (Ok body, a)
      | _, Denied => (Err AccessDeniedError, a)
      | _, Failed status body => (Err (APIError status body), a)
      end
  end.

Definition api_of (d : Device) : API State := {|
  API_init _ _ _ _ _ := mkState false;
  API_call := call d
|}.

(** The device answers a logout as the spec expects of it, whether or not
    the session is authenticated. *)
Definition answers_logout (d : Device) : Prop :=
  forall cookie, exists reply,
    send d cookie API.logout = Some reply
    /\ match reply with Failed _ _ => False | _ => True end.

End SpecAPI.

(** ** Sample data for the examples *)

(** Constants as a [const.py] could define them. *)
Definition sample_const : Const := {|
  User := bool;
  CUSTOMER := true;
  User_value u := if u then "customer" else "installer";
  members cls :=
    match cls with
    | DeviceType => ["hec"; "teg"; "smc"]
    | GridStatus => ["SystemGridConnected"; "SystemIslandedActive";
                     "SystemTransitionToGrid"]
    | OperationMode => ["backup"; "self_consumption"; "autonomous"]
    end
|}.

(** A device on firmware 1.45.9: its status response has no [device_type],
    the dedicated endpoint has it. *)
Definition legacy_device : SpecAPI.Device := {|
  SpecAPI.send cookie c :=
    Some match c with
         | API.login _ email _ _ =>
             SpecAPI.Success (JObj {[ "email" := JStr email ]})
         | API.logout => if cookie then SpecAPI.Success JNull else SpecAPI.Denied
         | API.get_system_status_soe =>
             SpecAPI.Success (JObj {[ "percentage" := JFloat (175 # 2) ]})
         | API.get_status =>
             SpecAPI.Success (JObj {[ "version" := JStr "1.45.9" ]})
         | API.get_device_type =>
             SpecAPI.Success (JObj {[ "device_type" := JStr "hec" ]})
         | API.get_system_status_grid_status =>
             SpecAPI.Success (JObj {[ "grid_status" := JStr "SystemGridConnected" ]})
         | _ => SpecAPI.Success (JObj ∅)
         end
|}.

(** A device whose responses have drifted: no charge percentage, and values
    of the enumeration fields that the constants do not list. *)
Definition drifted_device : SpecAPI.Device := {|
  SpecAPI.send cookie c :=
    Some match c with
         | API.get_device_type =>
             SpecAPI.Success (JObj {[ "device_type" := JStr "gateway9" ]})
         | API.get_system_status_grid_status =>
             SpecAPI.Success (JObj {[ "grid_status" := JStr "SystemMicroGridFaulted" ]})
         | API.get_operation =>
             SpecAPI.Success (JObj {[ "real_mode" := JStr "turbo" ]})
         | _ => SpecAPI.Success (JObj ∅)
         end
|}.

(** A fresh object on top of a sample device, its calls traced. *)
Definition sample_powerwall (d : SpecAPI.Device) (pin_version : option string)
  : Powerwall (Traced SpecAPI.State) :=
  @__init__ (Traced SpecAPI.State) (@Traced_API _ (SpecAPI.api_of d))
            "192.168.1.2" 10 None false true pin_version.

(** An object without a pin whose session never logged in, and one pinned
    to 1.45.9 by [pin_version]. *)
Definition unpinned_session : Powerwall SpecAPI.State :=
  mkPowerwall None (SpecAPI.mkState false).

Definition pinned_1_45_9 : Powerwall SpecAPI.State :=
  mkPowerwall (Some (PinVersion (version.final 1 45 9))) (SpecAPI.mkState false).

(** ** Outcomes, requests and fields of the operations *)

(** The exception a call ended with, if any. *)
Definition raised {X} (r : Result X) : option Error :=
  match r with Ok _ => None | Err e => Some e end.

(** A method that makes no call on the [API] object. *)
Definition quiet {A X} (m : Method A X) : Prop :=
  forall self, _api (snd (m self)) = _api self.

(** A method whose result and whose effect on the [API] object are the same
    whatever the pin is. *)
Definition pin_blind {A X} (m : Method A X) : Prop :=
  forall (p q : option Pin) (a : A),
    fst (m (mkPowerwall p a)) = fst (m (mkPowerwall q a))
    /\ _api (snd (m (mkPowerwall p a))) = _api (snd (m (mkPowerwall q a))).

Section Outcomes.
Context `{Const} {A : Type} `{API A}.

(** How an operation ends on an object: with an exception or without. *)
Definition outcome (o : Op) (self : Powerwall A) : option Error :=
  match o with
  | op_login e p f => raised (fst (login e p f self))
  | op_login_as u e p f => raised (fst (login_as u e p f self))
  | op_logout => raised (fst (logout self))
  | op_run => raised (fst (run self))
  | op_stop => raised (fst (stop self))
  | op_get_charge => raised (fst (get_charge self))
  | op_get_sitemaster => raised (fst (get_sitemaster self))
  | op_get_meters => raised (fst (get_meters self))
  | op_get_grid_status => raised (fst (get_grid_status self))
  | op_is_grid_services_active => raised (fst (is_grid_services_active self))
  | op_get_site_info => raised (fst (get_site_info self))
  | op_set_site_name n => raised (fst (set_site_name n self))
  | op_get_status => raised (fst (get_status self))
  | op_get_device_type => raised (fst (get_device_type self))
  | op_get_serial_numbers => raised (fst (get_serial_numbers self))
  | op_get_operation_mode => raised (fst (get_operation_mode self))
  | op_get_backup_reserved_percentage =>
      raised (fst (get_backup_reserved_percentage self))
  | op_get_solars => raised (fst (get_solars self))
  | op_get_vin => raised (fst (get_vin self))
  | op_get_version => raised (fst (get_version self))
  | op_get_pinned_version => raised (fst (get_pinned_version self))
  | op_get_api => raised (fst (get_api self))
  end.

(** The calls an operation makes on the [API] object, read off its body;
    only [get_device_type] looks at the pin. *)
Definition requests (o : Op) (pin : option Pin) : list API.Call :=
  match o with
  | op_login e p f => [API.login (User_value CUSTOMER) e p f]
  | op_login_as u e p f =>
      [API.login (match u with inl u => User_value u | inr s => s end) e p f]
  | op_logout => [API.logout]
  | op_run => [API.get_sitemater_run]
  | op_stop => [API.get_sitemaster_stop]
  | op_get_charge => [API.get_system_status_soe]
  | op_get_sitemaster => [API.get_sitemaster]
  | op_get_meters => [API.get_meters_aggregates]
  | op_get_grid_status => [API.get_system_status_grid_status]
  | op_is_grid_services_active => [API.get_system_status_grid_status]
  | op_get_site_info => [API.get_site_info]
  | op_set_site_name n =>
      [API.post_site_info_site_name (JObj {[ "site_name" := JStr n ]})]
  | op_get_status => [API.get_status]
  | op_get_device_type =>
      match pin with
      | None => [API.get_status]
      | Some (PinVersion v) => [device_type_request (Some v)]
      | Some (PinStr _) => []
      end
  | op_get_serial_numbers => [API.get_powerwalls]
  | op_get_operation_mode => [API.get_operation]
  | op_get_backup_reserved_percentage => [API.get_operation]
  | op_get_solars => [API.get_solars]
  | op_get_vin => [API.get_config]
  | op_get_version => [API.get_status]
  | op_get_pinned_version => []
  | op_get_api => []
  end.

(** The reads that validate one field of the response with
    [assert_attribute], with the request, the key and the category label
    each passes. *)
Inductive FieldRead : Type :=
| field_percentage
| field_grid_status
| field_grid_services_active
| field_device_type
| field_powerwalls
| field_real_mode
| field_backup_reserved_percent
| field_vin
| field_version.

Definition field_op (r : FieldRead) : Op :=
  match r with
  | field_percentage => op_get_charge
  | field_grid_status => op_get_grid_status
  | field_grid_services_active => op_is_grid_services_active
  | field_device_type => op_get_device_type
  | field_powerwalls => op_get_serial_numbers
  | field_real_mode => op_get_operation_mode
  | field_backup_reserved_percent => op_get_backup_reserved_percentage
  | field_vin => op_get_vin
  | field_version => op_get_version
  end.

Definition field_call (r : FieldRead) : API.Call :=
  match r with
  | field_percentage => API.get_system_status_soe
  | field_grid_status => API.get_system_status_grid_status
  | field_grid_services_active => API.get_system_status_grid_status
  | field_device_type => API.get_device_type
  | field_powerwalls => API.get_powerwalls
  | field_real_mode => API.get_operation
  | field_backup_reserved_percent => API.get_operation
  | field_vin => API.get_config
  | field_version => API.get_status
  end.

Definition field_key (r : FieldRead) : string :=
  match r with
  | field_percentage => "percentage"
  | field_grid_status => "grid_status"
  | field_grid_services_active => "grid_services_active"
  | field_device_type => "device_type"
  | field_powerwalls => "powerwalls"
  | field_real_mode => "real_mode"
  | field_backup_reserved_percent => "backup_reserved_percent"
  | field_vin => "vin"
  | field_version => "version"
  end.

Definition field_label (r : FieldRead) : string :=
  match r with
  | field_percentage => "soe"
  | field_grid_status => "grid_status"
  | field_grid_services_active => "grid_status"
  | field_device_type => "device_type"
  | field_powerwalls => "powerwalls"
  | field_real_mode => "operation"
  | field_backup_reserved_percent => "operation"
  | field_vin => "config"
  | field_version => "status"
  end.

(** The device-type field is read from the dedicated endpoint only behind
    the version gate. *)
Definition field_ready (r : FieldRead) (self : Powerwall A) : Prop :=
  match r with
  | field_device_type => pinned_below_threshold self
  | _ => True
  end.

(** The reads that return the validated value as it is. *)
Inductive PlainRead : Type :=
| plain_charge
| plain_grid_services_active
| plain_backup_reserved_percentage
| plain_vin
| plain_version.

Definition plain_read (r : PlainRead) : Method A Json :=
  match r with
  | plain_charge => get_charge
  | plain_grid_services_active => is_grid_services_active
  | plain_backup_reserved_percentage => get_backup_reserved_percentage
  | plain_vin => get_vin
  | plain_version => get_version
  end.

Definition plain_field (r : PlainRead) : FieldRead :=
  match r with
  | plain_charge => field_percentage
  | plain_grid_services_active => field_grid_services_active
  | plain_backup_reserved_percentage => field_backup_reserved_percent
  | plain_vin => field_vin
  | plain_version => field_version
  end.

End Outcomes.

(** An item of the [powerwalls] list that carries a serial number, and one
    that does not: it is no mapping, or lacks the key, or holds null. *)
Definition has_serial (powerwall serial : Json) : Prop :=
  exists pm, powerwall = JObj pm
             /\ pm !! "PackageSerialNumber" = Some serial /\ serial <> JNull.

Definition lacks_serial (powerwall : Json) : Prop :=
  forall pm, powerwall = JObj pm ->
             pm !! "PackageSerialNumber" = None
             \/ pm !! "PackageSerialNumber" = Some JNull.

(** Two devices that answer every request with a list of two batteries;
    on the second device the second battery reports no serial number. *)
Definition two_batteries : SpecAPI.Device :=
  SpecAPI.mkDevice (fun _ _ =>
    Some (SpecAPI.Success (JObj {[ "powerwalls" :=
      JArr [JObj {[ "PackageSerialNumber" := JStr "SN-1" ]};
            JObj {[ "PackageSerialNumber" := JStr "SN-2" ]}] ]}))).

Definition nameless_battery : SpecAPI.Device :=
  SpecAPI.mkDevice (fun _ _ =>
    Some (SpecAPI.Success (JObj {[ "powerwalls" :=
      JArr [JObj {[ "PackageSerialNumber" := JStr "SN-1" ]}; JObj ∅] ]}))).

(** A device that cannot be reached. *)
Definition unreachable_device : SpecAPI.Device :=
  SpecAPI.mkDevice (fun _ _ => None).

(** A device that answers every request with a list of two inverters. *)
Definition two_inverters : SpecAPI.Device :=
  SpecAPI.mkDevice (fun _ _ =>
    Some (SpecAPI.Success
            (JArr [JObj {[ "brand" := JStr "SolarEdge" ]};
                   JObj {[ "brand" := JStr "Fronius" ]}]))).

(** A three-way comparison that is an order: swapping the arguments flips
    the answer, arguments that compare equal compare alike with any third,
    and less-than is transitive. *)
Record CmpOrder {X} (cmp : X -> X -> comparison) : Prop := mkCmpOrder {
  cmp_opp : forall x y, cmp y x = CompOpp (cmp x y);
  cmp_eq_l : forall x y z, cmp x y = Eq -> cmp x z = cmp y z;
  cmp_lt_trans : forall x y z, cmp x y = Lt -> cmp y z = Lt -> cmp x z = Lt
}.

(** The decimal numeral of a number, and the version string
    [major.minor.patch] written with such numerals. *)
Definition decimal (n : N) : string := NilEmpty.string_of_uint (N.to_uint n).

Definition dotted (major minor patch : N) : string :=
  String.append (decimal major)
    (String "." (String.append (decimal minor) (String "." (decimal patch)))).

(** The number of digits of the decimal numeral of a number. *)
Definition digits (n : N) : N := N.of_nat (String.length (decimal n)).

(** The reading of the version gate under which only the numbers
    major.minor.patch of the pin count, whatever else the version string
    carries: a pin whose release is [major.minor.patch] takes the live path
    if and only if (1, 46, 0) is at most that triple. *)
Definition gate_follows_release_numbers : Prop :=
  forall (C : Const) (A : Type) (I : API A) (self : Powerwall (Traced A))
         (V : string) (P : version.Version) (major minor patch : N),
    version.parse V = Ok P ->
    version.release P = [major; minor; patch] ->
    (trace_of (snd (get_device_type (snd (pin_version V self))))
     = trace_of self ++ [API.get_status]
     <-> triple_le (1, 46, 0)%N (major, minor, patch)).

(** What the live path returns for the outcome of its status request: the
    [device_type] of the status response. *)
Definition from_status `{Const} (r : Result Json) : Result EnumMember :=
  match r with
  | Ok status => PowerwallStatus_device_type (mkResponse PowerwallStatus status)
  | Err e => Err e
  end.

(** What the legacy path returns for the outcome of its request to the
    dedicated endpoint: the validated [device_type] field as a member of
    [DeviceType]. *)
Definition from_endpoint `{Const} (r : Result Json) : Result EnumMember :=
  match r with
  | Ok response =>
      match assert_attribute response "device_type" (Some "device_type") with
      | Ok device_type => Enum_call DeviceType device_type
      | Err e => Err e
      end
  | Err e => Err e
  end.

(** * Properties *)

(** ** The threshold and the ordering of final releases *)

Lemma parse_threshold : version.parse "1.46.0" = Ok (version.final 1 46 0).
Proof. reflexivity. Qed.

Lemma compare_final (a b c d e f : N) :
  version.compare (version.final a b c) (version.final d e f)
  = version.lex (a ?= d)%N (version.lex (b ?= e)%N (c ?= f)%N).
Proof.
  unfold version.compare, version.cmp_key, version._cmpkey, version.final,
    version.strip_trailing_zeros; cbn [version.epoch version.release version.pre
    version.post version.dev version.local version.key_epoch version.key_release
    version.key_pre version.key_post version.key_dev version.key_local].
  destruct a, b, c, d, e, f; cbn; try reflexivity;
    repeat match goal with |- context [(?x ?= ?y)%positive] =>
      destruct (x ?= y)%positive eqn:?; cbn end; reflexivity.
Qed.

Lemma ge_final (a b c d e f : N) :
  version.ge (version.final a b c) (version.final d e f) = true
  <-> triple_le (d, e, f) (a, b, c).
Proof.
  unfold version.ge. rewrite compare_final. unfold triple_le, version.lex.
  destruct (N.compare_spec a d), (N.compare_spec b e), (N.compare_spec c f);
    split; intros; try discriminate; try reflexivity; lia.
Qed.

(** ** Methods leave the pin alone unless they assign it *)

Section Frame.
Context `{Const} {A : Type} `{API A}.

Lemma keeps_pin_ret {X} (x : X) : keeps_pin (A := A) (ret x).
Proof. intros self. reflexivity. Qed.

Lemma keeps_pin_lift {X} (r : Result X) : keeps_pin (A := A) (lift r).
Proof. intros self. reflexivity. Qed.

Lemma keeps_pin_read_pin : keeps_pin (A := A) read_pin.
Proof. intros self. reflexivity. Qed.

Lemma keeps_pin_api (c : API.Call) : keeps_pin (api c).
Proof.
  intros self. unfold api. destruct (API_call c (_api self)). reflexivity.
Qed.

Lemma keeps_pin_bind {X Y} (m : Method A X) (k : X -> Method A Y) :
  keeps_pin m -> (forall x, keeps_pin (k x)) -> keeps_pin (bind m k).
Proof.
  intros Hm Hk self. unfold bind. specialize (Hm self).
  destruct (m self) as [[x | e] self']; cbn in *.
  - rewrite Hk. exact Hm.
  - exact Hm.
Qed.

Lemma keeps_pin_for_each {X Y} (f : X -> Method A Y) (l : list X) :
  (forall x, keeps_pin (f x)) -> keeps_pin (for_each f l).
Proof.
  intros Hf. induction l as [| x l IH]; cbn [for_each].
  - apply keeps_pin_ret.
  - apply keeps_pin_bind; [apply Hf |].
    intros y. apply keeps_pin_bind; [exact IH |].
    intros ys. apply keeps_pin_ret.
Qed.

Lemma keeps_pin_get_api : keeps_pin (A := A) get_api.
Proof. intros self. reflexivity. Qed.

End Frame.

Create HintDb frame.
Create HintDb methods.

#[local] Hint Unfold login login_as logout run stop get_charge get_sitemaster
  get_meters get_grid_status is_grid_services_active get_site_info set_site_name
  get_status get_device_type get_serial_numbers get_operation_mode
  get_backup_reserved_percentage get_solars get_vin get_version
  get_pinned_version : methods.

#[local] Hint Resolve keeps_pin_ret keeps_pin_lift keeps_pin_read_pin keeps_pin_api
  keeps_pin_get_api : frame.

(** Decompose a method into its statements. *)
Ltac frame_step :=
  first
    [ apply keeps_pin_bind; [| intros ?]
    | apply keeps_pin_for_each; intros ?
    | solve [auto with frame]
    | match goal with
      | |- keeps_pin (match ?x with _ => _ end) => destruct x
      | |- keeps_pin (if ?b then _ else _) => destruct b
      end ].

Ltac frame := repeat frame_step.

Section FrameMethods.
Context `{Const} {A : Type} `{API A}.

Lemma keeps_pin_get_device_type : keeps_pin (A := A) get_device_type.
Proof. unfold get_device_type, get_status. frame. Qed.

Lemma after_keeps_pin (o : Op) (self : Powerwall A) :
  _pin_version (after o self) = _pin_version self.
Proof.
  revert self.
  destruct o; cbn [after];
    match goal with
    | |- forall self, _pin_version (snd (?m self)) = _ => change (keeps_pin m)
    end;
    autounfold with methods; frame.
Qed.

End FrameMethods.

(** ** The requests a traced object records *)

Section Traces.
Context `{Const} {A : Type} `{API A}.
Implicit Types self : Powerwall (Traced A).

Lemma api_traced (c : API.Call) self :
  api c self
  = (fst (API_call c (fst (_api self))),
     mkPowerwall (_pin_version self)
                 (snd (API_call c (fst (_api self))), trace_of self ++ [c])).
Proof.
  unfold api, trace_of. cbn [API_call Traced_API].
  destruct (API_call c (fst (_api self))). reflexivity.
Qed.

(** The one request of [get_device_type], by what the pin holds; a pin that
    is still a [str] raises before any request. *)
Lemma get_device_type_trace self :
  trace_of (snd (get_device_type self))
  = trace_of self ++
    match _pin_version self with
    | None => [API.get_status]
    | Some (PinVersion v) => [device_type_request (Some v)]
    | Some (PinStr _) => []
    end.
Proof.
  unfold get_device_type, get_status, bind at 1 2, read_pin.
  destruct (_pin_version self) as [[s | v] |] eqn:Hpin.
  - unfold bind, lift. rewrite parse_threshold. cbn. rewrite app_nil_r. reflexivity.
  - unfold bind at 1, lift at 1 2. rewrite parse_threshold. cbn [py_ge].
    unfold device_type_request.
    destruct (version.ge v (version.final 1 46 0)).
    + unfold bind, lift, ret. rewrite api_traced.
      destruct (fst (API_call API.get_status (fst (_api self)))); cbn;
        try reflexivity.
    + unfold bind, lift. rewrite api_traced.
      destruct (fst (API_call API.get_device_type (fst (_api self)))) as [r | e];
        cbn; try reflexivity.
      destruct (assert_attribute r "device_type" (Some "device_type")); cbn;
        reflexivity.
  - unfold bind, lift, ret. rewrite api_traced.
    destruct (fst (API_call API.get_status (fst (_api self)))); cbn;
      try reflexivity.
Qed.

End Traces.

(** ** Pinning *)

Section Pinning.
Context {A : Type}.

Lemma pin_version_ok (self : Powerwall A) (V : string) (P : version.Version) :
  version.parse V = Ok P ->
  pin_version V self = (Ok tt, mkPowerwall (Some (PinVersion P)) (_api self)).
Proof.
  intros HP. unfold pin_version, pin_version_object, bind, lift, parse_object.
  rewrite HP. reflexivity.
Qed.

Lemma parse_final_1_45_9 : version.parse "1.45.9" = Ok (version.final 1 45 9).
Proof. reflexivity. Qed.

End Pinning.

Lemma assert_attribute_present (m : gmap string Json) (key : string)
  (label : option string) (v : Json) :
  m !! key = Some v -> v <> JNull -> assert_attribute (JObj m) key label = Ok v.
Proof.
  intros Hm Hv. unfold assert_attribute. rewrite Hm.
  destruct v; try reflexivity. contradiction.
Qed.

(** ** What each path of [get_device_type] returns *)

Section Paths.
Context `{Const} {A : Type} `{API A}.

(** A call on a traced object, from the call on the object underneath. *)
Lemma traced_call (c : API.Call) (a : Traced A) (r : Result Json) (a' : A) :
  API_call c (fst a) = (r, a') -> API_call c a = (r, (a', snd a ++ [c])).
Proof.
  intros Hc. cbn [API_call Traced_API]. rewrite Hc. reflexivity.
Qed.

End Paths.

Section PathsAny.
Context `{Const} {A : Type} `{API A}.

Lemma get_device_type_live (self : Powerwall A) (r : Result Json) (a' : A) :
  match _pin_version self with
  | None => True
  | Some (PinVersion v) => version.ge v (version.final 1 46 0) = true
  | Some (PinStr _) => False
  end ->
  API_call API.get_status (_api self) = (r, a') ->
  get_device_type self = (from_status r, mkPowerwall (_pin_version self) a').
Proof.
  intros Hpin Hc.
  unfold get_device_type, get_status, bind, read_pin, lift, ret, api.
  destruct (_pin_version self) as [[s | v] |] eqn:E; [contradiction | |].
  - rewrite parse_threshold. cbn [py_ge]. rewrite Hpin, Hc, E.
    destruct r; reflexivity.
  - rewrite Hc, E. destruct r; reflexivity.
Qed.

Lemma get_device_type_legacy (self : Powerwall A) (r : Result Json) (a' : A) :
  pinned_below_threshold self ->
  API_call API.get_device_type (_api self) = (r, a') ->
  get_device_type self = (from_endpoint r, mkPowerwall (_pin_version self) a').
Proof.
  intros (v & Hpin & Hlt) Hc.
  unfold get_device_type, bind, read_pin, lift, api. rewrite Hpin.
  rewrite parse_threshold. cbn [py_ge]. rewrite Hlt, Hc, Hpin.
  destruct r as [response | e]; [| reflexivity].
  cbn [from_endpoint].
  destruct (assert_attribute response "device_type" (Some "device_type")); reflexivity.
Qed.

Lemma from_status_member (m : gmap string Json) (x : string) :
  m !! "device_type" = Some (JStr x) ->
  x ∈ members DeviceType ->
  from_status (Ok (JObj m)) = Ok (mkMember DeviceType x).
Proof.
  intros Hm Hx. unfold from_status, PowerwallStatus_device_type.
  cbn [json_response].
  rewrite (assert_attribute_present m "device_type" None (JStr x) Hm) by discriminate.
  unfold Enum_call. rewrite bool_decide_eq_true_2; auto.
Qed.

End PathsAny.

Lemma parse_1_46_0rc1 :
  version.parse "1.46.0rc1"
  = Ok (version.mkVersion 0 [1; 46; 0]%N (Some (version.pre_rc, 1%N)) None None None).
Proof. reflexivity. Qed.

(** C1, as stated, is false: the pin 1.46.0rc1 has the release numbers
    1.46.0, which are not below the threshold, and takes the legacy path. *)
Lemma prerelease_pin_takes_legacy_path : ~ gate_follows_release_numbers.
Proof.
  intros Hc.
  specialize (Hc sample_const SpecAPI.State (SpecAPI.api_of legacy_device)
                 (sample_powerwall legacy_device None) "1.46.0rc1" _ 1%N 46%N 0%N
                 parse_1_46_0rc1 eq_refl).
  assert (triple_le (1, 46, 0)%N (1, 46, 0)%N) as Ht by (cbn; lia).
  apply Hc in Ht. vm_compute in Ht. discriminate Ht.
Qed.

(** C1, amended.  After [pin_version(V)] with a well-formed [V] that parses
    to the version [P], the pin holds [P] and pinning has issued no request;
    [get_device_type] then issues exactly one request and no request to
    probe the version: if and only if [P >= 1.46.0] in the ordering of
    [packaging] versions, the status request of the live path, and it
    returns the [device_type] read from that status response; if and only
    if not, the request to the dedicated device-type endpoint of the legacy
    path, and it returns the validated [device_type] of that response as a
    [DeviceType].  For a final release [major.minor.patch] the ordering is
    the one by major, then minor, then patch: a pin of 1.46.0 takes the live
    path and a pin of 1.45.9 the legacy path.  A pre-release of 1.46.0, such
    as 1.46.0rc1, sorts below 1.46.0 and takes the legacy path. *)
Theorem pinned_version_selects_path `{Const} {A : Type} `{API A}
  (self : Powerwall (Traced A)) (V : string) (P : version.Version) :
  version.parse V = Ok P ->
  let pinned := snd (pin_version V self) in
  _pin_version pinned = Some (PinVersion P)
  /\ trace_of pinned = trace_of self
  /\ (trace_of (snd (get_device_type pinned)) = trace_of pinned ++ [API.get_status]
      <-> version.ge P (version.final 1 46 0) = true)
  /\ (trace_of (snd (get_device_type pinned)) = trace_of pinned ++ [API.get_device_type]
      <-> version.ge P (version.final 1 46 0) = false)
  /\ (forall major minor patch : N,
        P = version.final major minor patch ->
        (version.ge P (version.final 1 46 0) = true
         <-> triple_le (1, 46, 0)%N (major, minor, patch)))
  /\ trace_of (snd (get_device_type (snd (pin_version "1.46.0" self))))
     = trace_of self ++ [API.get_status]
  /\ trace_of (snd (get_device_type (snd (pin_version "1.45.9" self))))
     = trace_of self ++ [API.get_device_type]
  /\ (version.ge P (version.final 1 46 0) = true ->
      forall (r : Result Json) (a' : A),
        API_call API.get_status (fst (_api self)) = (r, a') ->
        get_device_type pinned
        = (from_status r,
           mkPowerwall (Some (PinVersion P)) (a', trace_of self ++ [API.get_status])))
  /\ (version.ge P (version.final 1 46 0) = true ->
      forall (m : gmap string Json) (x : string) (a' : A),
        API_call API.get_status (fst (_api self)) = (Ok (JObj m), a') ->
        m !! "device_type" = Some (JStr x) ->
        x ∈ members DeviceType ->
        fst (get_device_type pinned) = Ok (mkMember DeviceType x))
  /\ (version.ge P (version.final 1 46 0) = false ->
      forall (r : Result Json) (a' : A),
        API_call API.get_device_type (fst (_api self)) = (r, a') ->
        get_device_type pinned
        = (from_endpoint r,
           mkPowerwall (Some (PinVersion P))
                       (a', trace_of self ++ [API.get_device_type])))
  /\ trace_of (snd (get_device_type (snd (pin_version "1.46.0rc1" self))))
     = trace_of self ++ [API.get_device_type].
Proof.
  intros HP pinned. subst pinned.
  rewrite (pin_version_ok self V P HP).
  rewrite (pin_version_ok self _ _ parse_threshold).
  rewrite (pin_version_ok self _ _ parse_final_1_45_9).
  rewrite (pin_version_ok self _ _ parse_1_46_0rc1).
  rewrite !get_device_type_trace. cbn [snd _pin_version].
  unfold device_type_request.
  repeat match goal with |- _ /\ _ => split end; try reflexivity.
  - split.
    + intros E. apply app_inv_head in E.
      destruct (version.ge P (version.final 1 46 0)); [reflexivity | discriminate].
    + intros ->. reflexivity.
  - split.
    + intros E. apply app_inv_head in E.
      destruct (version.ge P (version.final 1 46 0)); [discriminate | reflexivity].
    + intros ->. reflexivity.
  - intros major minor patch ->. apply ge_final.
  - intros Hge r a' Hc.
    apply (get_device_type_live (mkPowerwall (Some (PinVersion P)) (_api self)));
      [exact Hge | apply traced_call; exact Hc].
  - intros Hge m x a' Hc Hm Hx.
    rewrite (get_device_type_live (mkPowerwall (Some (PinVersion P)) (_api self))
               (Ok (JObj m)) (a', trace_of self ++ [API.get_status]));
      [| exact Hge | apply traced_call; exact Hc].
    apply from_status_member; assumption.
  - intros Hlt r a' Hc.
    apply (get_device_type_legacy (mkPowerwall (Some (PinVersion P)) (_api self)));
      [exists P; split; [reflexivity | exact Hlt] | apply traced_call; exact Hc].
Qed.

(** C1, at the pin 1.46.1 on the sample legacy device. *)
Lemma pinned_version_selects_path_witness :
  version.parse "1.46.1" = Ok (version.final 1 46 1)
  /\ trace_of (snd (@get_device_type sample_const _
                      (@Traced_API _ (SpecAPI.api_of legacy_device))
                      (snd (pin_version "1.46.1" (sample_powerwall legacy_device None)))))
     = [API.get_status].
Proof.
  split; [reflexivity |].
  pose proof (@pinned_version_selects_path sample_const _
                (SpecAPI.api_of legacy_device)
                (sample_powerwall legacy_device None) "1.46.1"
                (version.final 1 46 1) eq_refl) as (_ & _ & Hlive & _).
  apply Hlive. reflexivity.
Defined.

(** C5.  [pin_version(V)] with a string [V] that is no version, that is,
    that the pattern of versions does not match, raises [InvalidVersion] and
    leaves the whole object, and so the pin it held (a version or none), as
    it was. *)
Theorem pin_version_malformed {A : Type} (self : Powerwall A) (V : string) :
  version.search V = None ->
  pin_version V self = (Err (InvalidVersion V), self)
  /\ _pin_version (snd (pin_version V self)) = _pin_version self.
Proof.
  intros HV.
  assert (pin_version V self = (Err (InvalidVersion V), self)) as E.
  { unfold pin_version, pin_version_object, bind, lift, parse_object, version.parse,
      version.Version_init.
    rewrite HV. reflexivity. }
  rewrite E. split; reflexivity.
Qed.

(** C5, at the string not-a-version on an object pinned to 1.45.9. *)
Lemma pin_version_malformed_witness :
  version.search "not-a-version" = None
  /\ pin_version "not-a-version" pinned_1_45_9
     = (Err (InvalidVersion "not-a-version"), pinned_1_45_9).
Proof.
  split; [reflexivity |].
  apply (pin_version_malformed pinned_1_45_9 "not-a-version"). reflexivity.
Defined.

(** C2.  The constructor stores the string it is given unparsed, and
    [get_device_type] then compares a [str] with a [Version]: on an object
    constructed with the pin [V] it raises [TypeError] before any request,
    for every [V]; on an object constructed without a pin and then pinned
    with [pin_version("1.46.0")] it issues the status request of the live
    path. *)
Theorem constructor_pin_is_not_parsed `{Const} {A : Type} `{API A}
  (endpoint : string) (timeout : Z) (http_session : option nat)
  (verify_ssl disable_insecure_warning : bool) (V : string) :
  let new := @__init__ (Traced A) _ endpoint timeout http_session verify_ssl
               disable_insecure_warning in
  get_device_type (new (Some V)) = (Err TypeError, new (Some V))
  /\ trace_of (snd (get_device_type (new (Some V)))) = []
  /\ trace_of (snd (get_device_type (snd (pin_version "1.46.0" (new None)))))
     = [API.get_status].
Proof.
  intros new. split; [| split].
  - unfold get_device_type, bind, read_pin, lift. cbn. reflexivity.
  - rewrite get_device_type_trace. reflexivity.
  - rewrite (pin_version_ok _ _ _ parse_threshold).
    rewrite get_device_type_trace. reflexivity.
Qed.

(** ** Without a pin *)

(** C3 as stated is false: on the sample device on firmware 1.45.9, whose
    dedicated endpoint does answer, [get_device_type] without a pin issues
    the status request and nothing else. *)
Lemma unpinned_path_ignores_version : ~ unpinned_path_follows_probe.
Proof.
  intros Hc.
  specialize (Hc sample_const SpecAPI.State (SpecAPI.api_of legacy_device)
                 (sample_powerwall legacy_device None)
                 {[ "version" := JStr "1.45.9" ]} "1.45.9" (version.final 1 45 9)
                 (SpecAPI.mkState false)
                 eq_refl eq_refl eq_refl eq_refl eq_refl).
  vm_compute in Hc. discriminate Hc.
Qed.

(** C3, amended.  Without a pin, every invocation of [get_device_type]
    issues the status request of the live path, afresh on each call and
    whatever the device reports as its version, and returns the
    [device_type] read from that response.  With a pin, no invocation
    issues a request to probe the version: the only request is the one of
    the path the pin selects.  So [n] successive invocations issue [n]
    times the same request, and the pin is the same afterwards. *)
Theorem device_type_requests `{Const} {A : Type} `{API A}
  (n : nat) (self : Powerwall (Traced A)) :
  trace_of (invocations n get_device_type self)
  = trace_of self
    ++ concat (repeat (match _pin_version self with
                       | None => [API.get_status]
                       | Some (PinVersion v) => [device_type_request (Some v)]
                       | Some (PinStr _) => []
                       end) n)
  /\ _pin_version (invocations n get_device_type self) = _pin_version self
  /\ (_pin_version self = None ->
      forall (r : Result Json) (a' : A),
        API_call API.get_status (fst (_api self)) = (r, a') ->
        get_device_type self
        = (from_status r, mkPowerwall None (a', trace_of self ++ [API.get_status])))
  /\ (_pin_version self = None ->
      forall (m : gmap string Json) (x : string) (a' : A),
        API_call API.get_status (fst (_api self)) = (Ok (JObj m), a') ->
        m !! "device_type" = Some (JStr x) ->
        x ∈ members DeviceType ->
        fst (get_device_type self) = Ok (mkMember DeviceType x)).
Proof.
  split; [| split; [| split]].
  - revert self. induction n as [| n IH]; intros self; cbn [invocations repeat concat].
    + rewrite app_nil_r. reflexivity.
    + rewrite IH, (keeps_pin_get_device_type self), get_device_type_trace.
      rewrite <- app_assoc. reflexivity.
  - revert self. induction n as [| n IH]; intros self; cbn [invocations].
    + reflexivity.
    + rewrite IH. apply keeps_pin_get_device_type.
  - intros Hpin r a' Hc.
    rewrite (get_device_type_live self r (a', trace_of self ++ [API.get_status])).
    + rewrite Hpin. reflexivity.
    + rewrite Hpin. exact I.
    + apply traced_call. exact Hc.
  - intros Hpin m x a' Hc Hm Hx.
    rewrite (get_device_type_live self (Ok (JObj m))
               (a', trace_of self ++ [API.get_status])).
    + apply from_status_member; assumption.
    + rewrite Hpin. exact I.
    + apply traced_call. exact Hc.
Qed.

(** C3 amended, at three invocations without a pin on the sample legacy
    device. *)
Lemma device_type_requests_witness :
  trace_of (invocations 3
              (@get_device_type sample_const _
                 (@Traced_API _ (SpecAPI.api_of legacy_device)))
              (sample_powerwall legacy_device None))
  = [API.get_status; API.get_status; API.get_status].
Proof.
  exact (proj1 (@device_type_requests sample_const _ (SpecAPI.api_of legacy_device)
                  3 (sample_powerwall legacy_device None))).
Defined.

(** ** Validated attributes *)

Section Validation.
Context `{Const} {A : Type} `{API A}.

Lemma assert_attribute_missing (m : gmap string Json) (key : string)
  (label : option string) :
  m !! key = None \/ m !! key = Some JNull ->
  assert_attribute (JObj m) key label = Err (MissingAttributeError key label).
Proof.
  intros [Hm | Hm]; unfold assert_attribute; rewrite Hm; reflexivity.
Qed.

Lemma assert_attribute_Ok (m : gmap string Json) (key : string)
  (label : option string) (v : Json) :
  assert_attribute (JObj m) key label = Ok v -> m !! key = Some v /\ v <> JNull.
Proof.
  unfold assert_attribute. destruct (m !! key) as [w |]; [| discriminate].
  destruct w; cbn; intros E; inversion E; subst; split; try reflexivity;
    discriminate.
Qed.

(** A method that is one call and one validated attribute. *)
Lemma scalar_read (c : API.Call) (key : string) (label : option string)
  (self : Powerwall A) (r : Json) (a' : A) :
  API_call c (_api self) = (Ok r, a') ->
  (x <- api c ;; lift (assert_attribute x key label)) self
  = (assert_attribute r key label, mkPowerwall (_pin_version self) a').
Proof.
  intros Hc. unfold bind, api, lift. rewrite Hc. reflexivity.
Qed.

End Validation.

(** C4.  On a decoded mapping, the attribute validator returns the stored
    value itself when the key is present and not null, fails with
    [MissingAttributeError] carrying the key and the category label when the
    key is absent or null, and returns nothing else.  [get_charge] is the
    validator on the response of the state-of-charge request with the key
    percentage and the label soe: on a response holding 87.5 under
    percentage it returns 87.5, on the empty response it fails with that
    error naming percentage and soe. *)
Theorem get_charge_validates `{API} (self : Powerwall A)
  (m : gmap string Json) (a' : A) :
  API_call API.get_system_status_soe (_api self) = (Ok (JObj m), a') ->
  let self' := mkPowerwall (_pin_version self) a' in
  (forall v, m !! "percentage" = Some v -> v <> JNull ->
             get_charge self = (Ok v, self'))
  /\ (m !! "percentage" = None \/ m !! "percentage" = Some JNull ->
      get_charge self = (Err (MissingAttributeError "percentage" (Some "soe")), self'))
  /\ (forall v, fst (get_charge self) = Ok v ->
                m !! "percentage" = Some v /\ v <> JNull)
  /\ (m = {[ "percentage" := JFloat (175 # 2) ]} ->
      get_charge self = (Ok (JFloat (175 # 2)), self'))
  /\ (m = ∅ ->
      get_charge self = (Err (MissingAttributeError "percentage" (Some "soe")), self'))
  /\ (forall (r : gmap string Json) key label,
        (forall v, r !! key = Some v -> v <> JNull ->
                   assert_attribute (JObj r) key label = Ok v)
        /\ (r !! key = None \/ r !! key = Some JNull ->
            assert_attribute (JObj r) key label = Err (MissingAttributeError key label))).
Proof.
  intros Hc self'. unfold get_charge. rewrite (scalar_read _ _ _ _ _ _ Hc).
  fold self'. repeat split.
  - intros v Hm Hv. rewrite (assert_attribute_present _ _ _ _ Hm Hv). reflexivity.
  - intros Hm. rewrite (assert_attribute_missing _ _ _ Hm). reflexivity.
  - apply (assert_attribute_Ok m "percentage" (Some "soe")). assumption.
  - apply (assert_attribute_Ok m "percentage" (Some "soe")). assumption.
  - intros ->. reflexivity.
  - intros ->. reflexivity.
  - intros v. apply assert_attribute_present.
  - apply assert_attribute_missing.
Qed.

(** C4, on the sample devices: one reports a charge of 87.5, the other an
    empty mapping. *)
Lemma get_charge_validates_witness :
  @get_charge _ (SpecAPI.api_of legacy_device) unpinned_session
  = (Ok (JFloat (175 # 2)), unpinned_session)
  /\ @get_charge _ (SpecAPI.api_of drifted_device) unpinned_session
     = (Err (MissingAttributeError "percentage" (Some "soe")), unpinned_session).
Proof.
  split.
  - refine (proj1 (proj2 (proj2 (proj2
      (@get_charge_validates _ (SpecAPI.api_of legacy_device) unpinned_session
         {[ "percentage" := JFloat (175 # 2) ]} (SpecAPI.mkState false) eq_refl)))) eq_refl).
  - refine (proj1 (proj2 (proj2 (proj2 (proj2
      (@get_charge_validates _ (SpecAPI.api_of drifted_device) unpinned_session
         ∅ (SpecAPI.mkState false) eq_refl))))) eq_refl).
Defined.

(** ** Enumeration fields *)

(** C6.  When the response to the request of [get_grid_status], of
    [get_operation_mode] or of the legacy path of [get_device_type] holds,
    in the enumeration field, a string that is no value of a member of the
    enumeration, the operation raises [ValueError] for that enumeration and
    that string; it returns neither the string nor a default. *)
Theorem unknown_enum_value_raises `{Const} {A : Type} `{API A}
  (r : EnumRead) (self : Powerwall A) (m : gmap string Json) (x : string) (a' : A) :
  enum_read_ready r self ->
  API_call (enum_read_call r) (_api self) = (Ok (JObj m), a') ->
  m !! enum_read_field r = Some (JStr x) ->
  x ∉ members (enum_read_class r) ->
  enum_read r self
  = (Err (ValueError (enum_read_class r) (JStr x)), mkPowerwall (_pin_version self) a').
Proof.
  intros Hready Hc Hm Hx.
  assert (forall cls, x ∉ members cls ->
            Enum_call cls (JStr x) = Err (ValueError cls (JStr x))) as Hcall.
  { intros cls Hn. unfold Enum_call. rewrite bool_decide_eq_false_2; auto. }
  destruct r; cbn [enum_read enum_read_call enum_read_field enum_read_class] in *.
  - unfold get_grid_status, bind, api, lift. rewrite Hc.
    unfold assert_attribute. rewrite Hm. cbn [is_None].
    rewrite (Hcall _ Hx). reflexivity.
  - unfold get_operation_mode, bind, api, lift. rewrite Hc.
    unfold assert_attribute. rewrite Hm. cbn [is_None].
    rewrite (Hcall _ Hx). reflexivity.
  - destruct Hready as (v & Hpin & Hlt).
    unfold get_device_type, bind, read_pin, api, lift. rewrite Hpin.
    rewrite parse_threshold. cbn [py_ge]. rewrite Hlt. rewrite Hc.
    unfold assert_attribute. rewrite Hm. cbn [is_None].
    rewrite (Hcall _ Hx). rewrite Hpin. reflexivity.
Qed.

(** C6, for the device type on the legacy path: the sample drifted device
    answers gateway9, which the sample constants do not list. *)
Lemma unknown_enum_value_raises_witness :
  @get_device_type sample_const _ (SpecAPI.api_of drifted_device) pinned_1_45_9
  = (Err (ValueError DeviceType (JStr "gateway9")), pinned_1_45_9).
Proof.
  refine (@unknown_enum_value_raises sample_const _ (SpecAPI.api_of drifted_device)
            read_device_type pinned_1_45_9 {[ "device_type" := JStr "gateway9" ]}
            "gateway9" (SpecAPI.mkState false) _ eq_refl eq_refl _).
  - exists (version.final 1 45 9). split; reflexivity.
  - cbn. intros Hin. apply list_elem_of_In in Hin. cbn in Hin.
    repeat (destruct Hin as [Hin | Hin]; [discriminate Hin |]). exact Hin.
Defined.

(** ** Detecting the version *)

(** C7.  When the status response reports the version string [V], which
    parses to [P], [detect_and_pin_version] issues exactly one request, the
    status request, stores [P] as the pin and returns it, and
    [get_pinned_version] then yields [P]; none of the other operations
    changes the pin. *)
Theorem detect_and_pin_version_pins `{Const} {A : Type} `{API A}
  (self : Powerwall (Traced A)) (m : gmap string Json) (V : string)
  (P : version.Version) (a' : A) :
  API_call API.get_status (fst (_api self)) = (Ok (JObj m), a') ->
  m !! "version" = Some (JStr V) ->
  version.parse V = Ok P ->
  let pinned := snd (detect_and_pin_version self) in
  fst (detect_and_pin_version self) = Ok (Some (PinVersion P))
  /\ _pin_version pinned = Some (PinVersion P)
  /\ trace_of pinned = trace_of self ++ [API.get_status]
  /\ fst (get_pinned_version pinned) = Ok (Some (PinVersion P))
  /\ (forall (o : Op) (s : Powerwall (Traced A)),
        _pin_version (after o s) = _pin_version s).
Proof.
  intros Hc Hm HP pinned.
  assert (detect_and_pin_version self
          = (Ok (Some (PinVersion P)),
             mkPowerwall (Some (PinVersion P)) (a', trace_of self ++ [API.get_status])))
    as E.
  { unfold detect_and_pin_version, get_version, pin_version_object.
    unfold bind, lift, read_pin, write_pin. rewrite api_traced. rewrite Hc.
    cbn [fst snd]. unfold assert_attribute. rewrite Hm. cbn [is_None parse_object].
    rewrite HP. reflexivity. }
  subst pinned. rewrite E. cbn [fst snd _pin_version].
  repeat split. apply after_keeps_pin.
Qed.

(** C7, on the sample legacy device, which reports 1.45.9. *)
Lemma detect_and_pin_version_pins_witness :
  @detect_and_pin_version _ (@Traced_API _ (SpecAPI.api_of legacy_device))
     (sample_powerwall legacy_device None)
  = (Ok (Some (PinVersion (version.final 1 45 9))),
     mkPowerwall (Some (PinVersion (version.final 1 45 9)))
                 (SpecAPI.mkState false, [API.get_status])).
Proof.
  pose proof (@detect_and_pin_version_pins sample_const _ (SpecAPI.api_of legacy_device)
                (sample_powerwall legacy_device None)
                {[ "version" := JStr "1.45.9" ]} "1.45.9" (version.final 1 45 9)
                (SpecAPI.mkState false) eq_refl eq_refl eq_refl)
    as (Hr & Hp & Ht & _).
  destruct (@detect_and_pin_version _ (@Traced_API _ (SpecAPI.api_of legacy_device))
              (sample_powerwall legacy_device None)) as [r [p [a t]]] eqn:E.
  cbn in Hr, Hp, Ht. subst r p t.
  f_equal. f_equal. f_equal.
  apply (f_equal (fun x => fst (_api (snd x)))) in E. cbn in E. symmetry. exact E.
Defined.

(** ** Authentication *)

Section Authentication.
Context `{Const} {A : Type} `{API A}.

(** [logout] raises what [API.logout] raises and nothing of its own. *)
Lemma logout_result (self : Powerwall A) :
  logout self
  = (match fst (API_call API.logout (_api self)) with
     | Ok _ => Ok tt
     | Err e => Err e
     end,
     mkPowerwall (_pin_version self) (snd (API_call API.logout (_api self)))).
Proof.
  unfold logout, bind, api, ret.
  destruct (API_call API.logout (_api self)) as [[r | e] a]; reflexivity.
Qed.

End Authentication.

(** C8.  Over the [API] object of the spec and a device that answers a
    logout with success or with the not-logged-in refusal, [logout]
    completes without raising whether or not the session is authenticated,
    leaves the session unauthenticated, and completes again when called a
    second time. *)
Theorem logout_twice (d : SpecAPI.Device) (self : Powerwall SpecAPI.State) :
  SpecAPI.answers_logout d ->
  let logout := @logout _ (SpecAPI.api_of d) in
  fst (logout self) = Ok tt
  /\ SpecAPI.authenticated (_api (snd (logout self))) = false
  /\ fst (logout (snd (logout self))) = Ok tt.
Proof.
  intros Hd lo. subst lo.
  assert (forall s : Powerwall SpecAPI.State,
            @logout _ (SpecAPI.api_of d) s
            = (Ok tt, mkPowerwall (_pin_version s) (SpecAPI.mkState false))) as E.
  { intros s. rewrite logout_result. cbn [API_call SpecAPI.api_of]. unfold SpecAPI.call.
    destruct (Hd (SpecAPI.authenticated (_api s))) as (reply & -> & Hreply).
    destruct reply; [reflexivity | reflexivity | contradiction]. }
  rewrite !E. repeat split.
Qed.

(** C8, on the sample legacy device and a session that never logged in. *)
Lemma logout_twice_witness :
  SpecAPI.answers_logout legacy_device
  /\ fst (@logout _ (SpecAPI.api_of legacy_device) unpinned_session) = Ok tt
  /\ fst (@logout _ (SpecAPI.api_of legacy_device)
            (snd (@logout _ (SpecAPI.api_of legacy_device) unpinned_session)))
     = Ok tt.
Proof.
  assert (SpecAPI.answers_logout legacy_device) as Hd.
  { intros [|]; eexists; split; try reflexivity; exact I. }
  destruct (logout_twice legacy_device unpinned_session Hd) as (H1 & _ & H2).
  split; [exact Hd | split; assumption].
Defined.

(** C9.  [login(email, password, force_sm_off)] is
    [login_as(User.CUSTOMER, email, password, force_sm_off)]: the one
    request is [API.login] with the value of [User.CUSTOMER], the result is
    its response wrapped as a [LoginResponse], a failure is the failure of
    that request, and the object afterwards is the same. *)
Theorem login_is_login_as_customer `{Const} {A : Type} `{API A}
  (email password : string) (force_sm_off : bool) (self : Powerwall A) :
  login email password force_sm_off self
  = login_as (inl CUSTOMER) email password force_sm_off self
  /\ login email password force_sm_off self
     = login_as (inr (User_value CUSTOMER)) email password force_sm_off self
  /\ login email password force_sm_off self
     = (let '(r, a) :=
          API_call (API.login (User_value CUSTOMER) email password force_sm_off)
                   (_api self) in
        (match r with
         | Ok response => Ok (mkResponse LoginResponse response)
         | Err e => Err e
         end,
         mkPowerwall (_pin_version self) a)).
Proof.
  repeat split.
  unfold login, login_as, bind, api, ret.
  destruct (API_call _ (_api self)) as [[r | e] a]; reflexivity.
Qed.

(** ** The pin as a frame *)

(** C10.  Each public operation other than the constructor, [pin_version]
    and [detect_and_pin_version] leaves the pin as it was, whatever the
    [API] object answers; so does any sequence of them. *)
Theorem operations_keep_pin `{Const} {A : Type} `{API A}
  (ops : list Op) (o : Op) (self : Powerwall A) :
  _pin_version (after o self) = _pin_version self
  /\ _pin_version (fold_left (fun s o => after o s) ops self) = _pin_version self.
Proof.
  split; [apply after_keeps_pin |].
  revert self. induction ops as [| o' ops IH]; intros self; cbn [fold_left].
  - reflexivity.
  - rewrite IH. apply after_keeps_pin.
Qed.

(** ** One request per operation *)

Section Quiet.
Context {A : Type}.

Lemma quiet_ret {X} (x : X) : quiet (A := A) (ret x).
Proof. intros self. reflexivity. Qed.

Lemma quiet_lift {X} (r : Result X) : quiet (A := A) (lift r).
Proof. intros self. reflexivity. Qed.

Lemma quiet_read_pin : quiet (A := A) read_pin.
Proof. intros self. reflexivity. Qed.

Lemma quiet_write_pin (p : option Pin) : quiet (A := A) (write_pin p).
Proof. intros self. reflexivity. Qed.

Lemma quiet_get_api : quiet (A := A) get_api.
Proof. intros self. reflexivity. Qed.

Lemma quiet_bind {X Y} (m : Method A X) (k : X -> Method A Y) :
  quiet m -> (forall x, quiet (k x)) -> quiet (bind m k).
Proof.
  intros Hm Hk self. unfold bind. specialize (Hm self).
  destruct (m self) as [[x | e] self']; cbn in *.
  - rewrite Hk. exact Hm.
  - exact Hm.
Qed.

Lemma quiet_for_each {X Y} (f : X -> Method A Y) (l : list X) :
  (forall x, quiet (f x)) -> quiet (for_each f l).
Proof.
  intros Hf. induction l as [| x l IH]; cbn [for_each].
  - apply quiet_ret.
  - apply quiet_bind; [apply Hf |].
    intros y. apply quiet_bind; [exact IH |].
    intros ys. apply quiet_ret.
Qed.

End Quiet.

Create HintDb quiet.
#[local] Hint Resolve quiet_ret quiet_lift quiet_read_pin quiet_write_pin
  quiet_get_api : quiet.

Ltac quiet_step :=
  first
    [ apply quiet_bind; [| intros ?]
    | apply quiet_for_each; intros ?
    | solve [auto with quiet]
    | match goal with
      | |- quiet (match ?x with _ => _ end) => destruct x
      end ].

Ltac quiet := repeat quiet_step.

Section SingleRequest.
Context `{Const} {A : Type} `{API A}.
Implicit Types self : Powerwall (Traced A).

(** A call followed by statements that make none. *)
Lemma api_then_quiet {X} (c : API.Call) (k : Json -> Method (Traced A) X) self :
  (forall x, quiet (k x)) ->
  trace_of (snd (bind (api c) k self)) = trace_of self ++ [c].
Proof.
  intros Hk. unfold bind. rewrite api_traced.
  destruct (fst (API_call c (fst (_api self)))) as [x | e]; [| reflexivity].
  unfold trace_of. rewrite Hk. reflexivity.
Qed.

End SingleRequest.

(** X1.  Whether it returns or raises, an operation makes exactly the calls
    [requests] lists for it on the [API] object: one call for every
    operation that talks to the device, none for [get_pinned_version] and
    [get_api]. *)
Theorem operation_requests `{Const} {A : Type} `{API A}
  (o : Op) (self : Powerwall (Traced A)) :
  trace_of (after o self) = trace_of self ++ requests o (_pin_version self).
Proof.
  destruct o; cbn [after requests];
    try (autounfold with methods; apply api_then_quiet; intros; quiet; fail).
  - unfold set_site_name. rewrite api_traced. reflexivity.
  - apply get_device_type_trace.
  - rewrite app_nil_r. reflexivity.
  - rewrite app_nil_r. reflexivity.
Qed.

(** ** Failures of the request *)

(** X2.  When the call an operation makes on the [API] object raises, the
    operation raises the same exception: nothing is caught, translated or
    retried, no field is validated, and the object is left as the failed
    call left it. *)
Theorem request_failure_propagates `{Const} {A : Type} `{API A}
  (o : Op) (self : Powerwall A) (c : API.Call) (e : Error) (a' : A) :
  requests o (_pin_version self) = [c] ->
  API_call c (_api self) = (Err e, a') ->
  outcome o self = Some e
  /\ after o self = mkPowerwall (_pin_version self) a'.
Proof.
  intros Hreq Hcall.
  destruct o; cbn [requests] in Hreq; try discriminate Hreq;
    try (injection Hreq as <-; cbn [outcome after]; autounfold with methods;
         unfold bind, api; rewrite Hcall; split; reflexivity).
  cbn [outcome after]. unfold get_device_type, get_status, bind, read_pin, lift.
  destruct (_pin_version self) as [[s | v] |] eqn:Hpin; try discriminate Hreq.
  - rewrite parse_threshold. cbn [py_ge]. unfold device_type_request in Hreq.
    destruct (version.ge v (version.final 1 46 0)); injection Hreq as <-;
      unfold api; rewrite Hcall, Hpin; split; reflexivity.
  - injection Hreq as <-. unfold ret, api. rewrite Hcall, Hpin. split; reflexivity.
Qed.

(** X2, for [get_vin] on a device that cannot be reached. *)
Lemma request_failure_propagates_witness :
  @outcome sample_const _ (SpecAPI.api_of unreachable_device)
     op_get_vin unpinned_session
  = Some PowerwallUnreachableError.
Proof.
  exact (proj1 (@request_failure_propagates sample_const _
                  (SpecAPI.api_of unreachable_device)
                  op_get_vin unpinned_session API.get_config
                  PowerwallUnreachableError (SpecAPI.mkState false)
                  eq_refl eq_refl)).
Defined.

(** ** Fields of the response *)

(** X3.  Each read that validates a field fails in one way when the decoded
    mapping lacks the field or holds null under it: with
    [MissingAttributeError] naming the key and the category label that this
    read passes, as listed by [field_key] and [field_label]; the object is
    left as the request left it. *)
Theorem missing_field_raises `{Const} {A : Type} `{API A}
  (r : FieldRead) (self : Powerwall A) (m : gmap string Json) (a' : A) :
  field_ready r self ->
  API_call (field_call r) (_api self) = (Ok (JObj m), a') ->
  m !! field_key r = None \/ m !! field_key r = Some JNull ->
  outcome (field_op r) self
  = Some (MissingAttributeError (field_key r) (Some (field_label r)))
  /\ after (field_op r) self = mkPowerwall (_pin_version self) a'.
Proof.
  intros Hready Hcall Hm.
  pose proof (assert_attribute_missing m (field_key r) (Some (field_label r)) Hm) as E.
  destruct r; cbn [field_op field_call field_key field_label outcome after] in *;
    try (autounfold with methods; unfold bind, api, lift; rewrite Hcall, E;
         split; reflexivity).
  destruct Hready as (v & Hpin & Hlt).
  unfold get_device_type, bind, read_pin, api, lift. rewrite Hpin.
  rewrite parse_threshold. cbn [py_ge]. rewrite Hlt, Hcall, E, Hpin.
  split; reflexivity.
Qed.

(** X3, for [get_vin] on the sample drifted device, whose configuration
    response is empty. *)
Lemma missing_field_raises_witness :
  @outcome sample_const _ (SpecAPI.api_of drifted_device) op_get_vin unpinned_session
  = Some (MissingAttributeError "vin" (Some "config")).
Proof.
  exact (proj1 (@missing_field_raises sample_const _ (SpecAPI.api_of drifted_device)
                  field_vin unpinned_session ∅ (SpecAPI.mkState false)
                  I eq_refl (or_introl eq_refl))).
Defined.

(** X4.  [get_charge], [is_grid_services_active],
    [get_backup_reserved_percentage], [get_vin] and [get_version] return the
    value the response holds under their key exactly as decoded, whatever
    its type, when it is present and not null. *)
Theorem plain_read_returns_value `{API}
  (r : PlainRead) (self : Powerwall A) (m : gmap string Json) (v : Json) (a' : A) :
  API_call (field_call (plain_field r)) (_api self) = (Ok (JObj m), a') ->
  m !! field_key (plain_field r) = Some v ->
  v <> JNull ->
  plain_read r self = (Ok v, mkPowerwall (_pin_version self) a').
Proof.
  intros Hcall Hm Hv.
  pose proof (assert_attribute_present m (field_key (plain_field r))
                (Some (field_label (plain_field r))) v Hm Hv) as E.
  destruct r; cbn [plain_read plain_field field_call field_key field_label] in *;
    autounfold with methods; unfold bind, api, lift; rewrite Hcall, E; reflexivity.
Qed.

(** X4, for [get_version] on the sample legacy device. *)
Lemma plain_read_returns_value_witness :
  @get_version _ (SpecAPI.api_of legacy_device) unpinned_session
  = (Ok (JStr "1.45.9"), unpinned_session).
Proof.
  refine (@plain_read_returns_value _ (SpecAPI.api_of legacy_device) plain_version
            unpinned_session {[ "version" := JStr "1.45.9" ]} (JStr "1.45.9")
            (SpecAPI.mkState false) eq_refl eq_refl _).
  discriminate.
Defined.

(** X5.  When the enumeration field of the response holds the value of a
    member, [get_grid_status], [get_operation_mode] and the legacy path of
    [get_device_type] return the member of their enumeration that has this
    value. *)
Theorem known_enum_value_returned `{Const} {A : Type} `{API A}
  (r : EnumRead) (self : Powerwall A) (m : gmap string Json) (x : string) (a' : A) :
  enum_read_ready r self ->
  API_call (enum_read_call r) (_api self) = (Ok (JObj m), a') ->
  m !! enum_read_field r = Some (JStr x) ->
  x ∈ members (enum_read_class r) ->
  enum_read r self
  = (Ok (mkMember (enum_read_class r) x), mkPowerwall (_pin_version self) a').
Proof.
  intros Hready Hc Hm Hx.
  assert (Enum_call (enum_read_class r) (JStr x)
          = Ok (mkMember (enum_read_class r) x)) as Hcall.
  { unfold Enum_call. rewrite bool_decide_eq_true_2; auto. }
  destruct r; cbn [enum_read enum_read_call enum_read_field enum_read_class] in *.
  - unfold get_grid_status, bind, api, lift. rewrite Hc.
    unfold assert_attribute. rewrite Hm. cbn [is_None]. rewrite Hcall. reflexivity.
  - unfold get_operation_mode, bind, api, lift. rewrite Hc.
    unfold assert_attribute. rewrite Hm. cbn [is_None]. rewrite Hcall. reflexivity.
  - destruct Hready as (v & Hpin & Hlt).
    unfold get_device_type, bind, read_pin, api, lift. rewrite Hpin.
    rewrite parse_threshold. cbn [py_ge]. rewrite Hlt, Hc.
    unfold assert_attribute. rewrite Hm. cbn [is_None]. rewrite Hcall, Hpin.
    reflexivity.
Qed.

(** X5, for the grid status on the sample legacy device. *)
Lemma known_enum_value_returned_witness :
  @get_grid_status sample_const _ (SpecAPI.api_of legacy_device) unpinned_session
  = (Ok (mkMember GridStatus "SystemGridConnected"), unpinned_session).
Proof.
  refine (@known_enum_value_returned sample_const _ (SpecAPI.api_of legacy_device)
            read_grid_status unpinned_session
            {[ "grid_status" := JStr "SystemGridConnected" ]} "SystemGridConnected"
            (SpecAPI.mkState false) I eq_refl eq_refl _).
  cbn. apply list_elem_of_In. cbn. left. reflexivity.
Defined.

(** ** Lists in the response *)

Section Lists.
Context {A : Type}.

Lemma for_each_lift_all {X Y} (f : X -> Result Y) (l : list X) (ys : list Y)
  (self : Powerwall A) :
  Forall2 (fun x y => f x = Ok y) l ys ->
  for_each (fun x => lift (f x)) l self = (Ok ys, self).
Proof.
  intros Hall. induction Hall as [| x y l ys Hx _ IH]; cbn [for_each].
  - reflexivity.
  - unfold bind at 1, lift at 1. rewrite Hx.
    unfold bind at 1. rewrite IH. reflexivity.
Qed.

(** When every failure of [f] is the same exception, the loop raises it as
    soon as one item fails, wherever that item is. *)
Lemma for_each_lift_exists {X Y} (f : X -> Result Y) (e : Error) (l : list X)
  (self : Powerwall A) :
  (forall x e', f x = Err e' -> e' = e) ->
  Exists (fun x => f x = Err e) l ->
  for_each (fun x => lift (f x)) l self = (Err e, self).
Proof.
  intros Hsame Hex. induction l as [| x l IH]; [inversion Hex |].
  cbn [for_each]. unfold bind at 1, lift at 1.
  destruct (f x) as [y | e'] eqn:Hx.
  - unfold bind at 1. rewrite IH; [reflexivity |].
    inversion Hex as [? ? Hhd | ? ? Htl]; subst; [congruence | exact Htl].
  - rewrite (Hsame x e' Hx). reflexivity.
Qed.

Lemma for_each_ret_map {X Y} (g : X -> Y) (l : list X) (self : Powerwall A) :
  for_each (fun x => ret (g x)) l self = (Ok (map g l), self).
Proof.
  induction l as [| x l IH]; cbn [for_each map]; [reflexivity |].
  unfold bind at 1, ret at 1. unfold bind at 1. rewrite IH. reflexivity.
Qed.

End Lists.

Lemma has_serial_validates (powerwall serial : Json) :
  has_serial powerwall serial ->
  assert_attribute powerwall "PackageSerialNumber" None = Ok serial.
Proof.
  intros (pm & -> & Hm & Hv). apply assert_attribute_present; assumption.
Qed.

Lemma lacks_serial_fails (powerwall : Json) :
  lacks_serial powerwall ->
  assert_attribute powerwall "PackageSerialNumber" None
  = Err (MissingAttributeError "PackageSerialNumber" None).
Proof.
  intros Hl. destruct powerwall; try reflexivity.
  apply assert_attribute_missing. apply Hl. reflexivity.
Qed.

Lemma assert_attribute_Err (response : Json) (key : string) (label : option string)
  (e : Error) :
  assert_attribute response key label = Err e -> e = MissingAttributeError key label.
Proof.
  unfold assert_attribute. destruct response; try (intros E; inversion E; reflexivity).
  destruct (m !! key) as [v |]; [| intros E; inversion E; reflexivity].
  destruct (is_None v); intros E; inversion E; reflexivity.
Qed.

(** X6.  When the [powerwalls] field is a list whose items all carry a
    serial number, [get_serial_numbers] returns the serial numbers, one per
    item and in the order of the list; for the empty list it returns the
    empty list. *)
Theorem get_serial_numbers_all `{API}
  (self : Powerwall A) (m : gmap string Json) (l serials : list Json) (a' : A) :
  API_call API.get_powerwalls (_api self) = (Ok (JObj m), a') ->
  m !! "powerwalls" = Some (JArr l) ->
  Forall2 has_serial l serials ->
  get_serial_numbers self = (Ok serials, mkPowerwall (_pin_version self) a')
  /\ length serials = length l.
Proof.
  intros Hcall Hm Hall. split; [| symmetry; eapply Forall2_length; exact Hall].
  unfold get_serial_numbers, bind at 1, api. rewrite Hcall.
  unfold bind at 1, lift at 1.
  rewrite (assert_attribute_present m "powerwalls" _ (JArr l) Hm) by discriminate.
  unfold bind at 1, lift at 1. cbn [py_iter].
  apply for_each_lift_all.
  eapply Forall2_impl; [exact Hall |]. intros pw sn. apply has_serial_validates.
Qed.

(** X6, on a device with two batteries. *)
Lemma get_serial_numbers_all_witness :
  @get_serial_numbers _ (SpecAPI.api_of two_batteries) unpinned_session
  = (Ok [JStr "SN-1"; JStr "SN-2"], unpinned_session).
Proof.
  refine (proj1 (@get_serial_numbers_all _ (SpecAPI.api_of two_batteries)
            unpinned_session _ _ [JStr "SN-1"; JStr "SN-2"] (SpecAPI.mkState false)
            eq_refl eq_refl _)).
  repeat constructor;
    eexists; (split; [reflexivity | split; [reflexivity | discriminate]]).
Defined.

(** X7.  When one item of the [powerwalls] list carries no serial number,
    wherever it is in the list, [get_serial_numbers] returns no partial
    list: it raises [MissingAttributeError] for [PackageSerialNumber], and
    this error carries no category label. *)
Theorem get_serial_numbers_missing `{API}
  (self : Powerwall A) (m : gmap string Json) (l : list Json) (a' : A) :
  API_call API.get_powerwalls (_api self) = (Ok (JObj m), a') ->
  m !! "powerwalls" = Some (JArr l) ->
  Exists lacks_serial l ->
  get_serial_numbers self
  = (Err (MissingAttributeError "PackageSerialNumber" None),
     mkPowerwall (_pin_version self) a').
Proof.
  intros Hcall Hm Hex.
  unfold get_serial_numbers, bind at 1, api. rewrite Hcall.
  unfold bind at 1, lift at 1.
  rewrite (assert_attribute_present m "powerwalls" _ (JArr l) Hm) by discriminate.
  unfold bind at 1, lift at 1. cbn [py_iter].
  apply for_each_lift_exists.
  - intros x e'. apply assert_attribute_Err.
  - eapply Exists_impl; [exact Hex |]. intros pw. apply lacks_serial_fails.
Qed.

(** X7, on a device whose second battery reports no serial number. *)
Lemma get_serial_numbers_missing_witness :
  @get_serial_numbers _ (SpecAPI.api_of nameless_battery) unpinned_session
  = (Err (MissingAttributeError "PackageSerialNumber" None), unpinned_session).
Proof.
  refine (@get_serial_numbers_missing _ (SpecAPI.api_of nameless_battery)
            unpinned_session _ _ (SpecAPI.mkState false) eq_refl eq_refl _).
  apply Exists_cons_tl, Exists_cons_hd.
  intros pm E. injection E as <-. left. reflexivity.
Defined.

(** X8.  When the response to the solars request is a list, [get_solars]
    returns one [Solar] per item, each wrapping its item, in the order of
    the list. *)
Theorem get_solars_wraps_each `{API}
  (self : Powerwall A) (l : list Json) (a' : A) :
  API_call API.get_solars (_api self) = (Ok (JArr l), a') ->
  get_solars self = (Ok (map (mkResponse Solar) l), mkPowerwall (_pin_version self) a')
  /\ (forall i item, l !! i = Some item ->
        exists solars, fst (get_solars self) = Ok solars
                       /\ json_response <$> solars !! i = Some item).
Proof.
  intros Hcall.
  assert (get_solars self
          = (Ok (map (mkResponse Solar) l), mkPowerwall (_pin_version self) a')) as E.
  { unfold get_solars, bind at 1, api. rewrite Hcall.
    unfold bind at 1, lift at 1. cbn [py_iter]. apply for_each_ret_map. }
  split; [exact E |].
  intros i item Hi. exists (map (mkResponse Solar) l). rewrite E. split; [reflexivity |].
  change (map (mkResponse Solar) l) with (mkResponse Solar <$> l).
  rewrite list_lookup_fmap, Hi. reflexivity.
Qed.

(** X8, on the sample device with two inverters. *)
Lemma get_solars_wraps_each_witness :
  fst (@get_solars _ (SpecAPI.api_of two_inverters) unpinned_session)
  = Ok [mkResponse Solar (JObj {[ "brand" := JStr "SolarEdge" ]});
        mkResponse Solar (JObj {[ "brand" := JStr "Fronius" ]})].
Proof.
  exact (f_equal fst
           (proj1 (@get_solars_wraps_each _ (SpecAPI.api_of two_inverters)
                     unpinned_session _ (SpecAPI.mkState false) eq_refl))).
Defined.

(** ** Pinning and detecting, continued *)

Section PinningMore.
Context `{Const} {A : Type} `{API A}.

Lemma pin_version_eq (self : Powerwall A) (V : string) :
  pin_version V self
  = match version.parse V with
    | Ok P => (Ok tt, mkPowerwall (Some (PinVersion P)) (_api self))
    | Err e => (Err e, self)
    end.
Proof.
  unfold pin_version, pin_version_object, bind, lift, parse_object.
  destruct (version.parse V); reflexivity.
Qed.

(** [detect_and_pin_version] in terms of what [get_version] returns. *)
Lemma detect_and_pin_version_eq (self : Powerwall A) :
  detect_and_pin_version self
  = match get_version self with
    | (Ok vers, self') =>
        match parse_object vers with
        | Ok v => (Ok (Some (PinVersion v)),
                   mkPowerwall (Some (PinVersion v)) (_api self'))
        | Err e => (Err e, self')
        end
    | (Err e, self') => (Err e, self')
    end.
Proof.
  unfold detect_and_pin_version, pin_version_object, bind, lift, read_pin, write_pin.
  destruct (get_version self) as [[vers | e] self']; [| reflexivity].
  destruct (parse_object vers); reflexivity.
Qed.

Lemma get_version_keeps_pin : keeps_pin (A := A) get_version.
Proof. unfold get_version. frame. Qed.

End PinningMore.

(** X9.  When [detect_and_pin_version] raises, for whatever reason (the
    request failed, the status response has no version, the version is no
    string or no well-formed version), the pin is what it was before the
    call. *)
Theorem detect_failure_keeps_pin `{API} (self : Powerwall A) (e : Error) :
  fst (detect_and_pin_version self) = Err e ->
  _pin_version (snd (detect_and_pin_version self)) = _pin_version self.
Proof.
  rewrite detect_and_pin_version_eq.
  pose proof (get_version_keeps_pin self) as Hkeep.
  destruct (get_version self) as [[vers | e'] self']; cbn [snd] in Hkeep.
  - destruct (parse_object vers); cbn [fst snd]; [discriminate | intros _; exact Hkeep].
  - intros _. exact Hkeep.
Qed.

(** X9, on the sample drifted device, whose status response is empty, for an
    object pinned to 1.45.9. *)
Lemma detect_failure_keeps_pin_witness :
  fst (@detect_and_pin_version _ (SpecAPI.api_of drifted_device) pinned_1_45_9)
  = Err (MissingAttributeError "version" (Some "status"))
  /\ _pin_version
       (snd (@detect_and_pin_version _ (SpecAPI.api_of drifted_device) pinned_1_45_9))
     = Some (PinVersion (version.final 1 45 9)).
Proof.
  split; [reflexivity |].
  exact (@detect_failure_keeps_pin _ (SpecAPI.api_of drifted_device) pinned_1_45_9
           (MissingAttributeError "version" (Some "status")) eq_refl).
Defined.

(** X10.  When [detect_and_pin_version] returns, [get_version] returned a
    string on the same object, that string is a well-formed version, and
    both the value returned and the pin afterwards are its parsed form. *)
Theorem detect_success_pins_parsed `{API} (self : Powerwall A) (p : option Pin) :
  fst (detect_and_pin_version self) = Ok p ->
  exists (V : string) (v : version.Version),
    fst (get_version self) = Ok (JStr V)
    /\ version.parse V = Ok v
    /\ p = Some (PinVersion v)
    /\ _pin_version (snd (detect_and_pin_version self)) = Some (PinVersion v)
    /\ _api (snd (detect_and_pin_version self)) = _api (snd (get_version self)).
Proof.
  rewrite detect_and_pin_version_eq.
  destruct (get_version self) as [[vers | e'] self']; cbn [fst snd]; [| discriminate].
  destruct (parse_object vers) as [v | e'] eqn:Hparse; cbn [fst snd]; [| discriminate].
  intros E. injection E as <-.
  destruct vers; try discriminate Hparse.
  exists s, v. cbn [parse_object] in Hparse. repeat split. exact Hparse.
Qed.

(** X10, on the sample legacy device. *)
Lemma detect_success_pins_parsed_witness :
  exists (V : string) (v : version.Version),
    fst (@get_version _ (SpecAPI.api_of legacy_device) unpinned_session) = Ok (JStr V)
    /\ version.parse V = Ok v
    /\ Some (PinVersion (version.final 1 45 9)) = Some (PinVersion v)
    /\ _pin_version
         (snd (@detect_and_pin_version _ (SpecAPI.api_of legacy_device) unpinned_session))
       = Some (PinVersion v)
    /\ _api (snd (@detect_and_pin_version _ (SpecAPI.api_of legacy_device)
                    unpinned_session))
       = _api (snd (@get_version _ (SpecAPI.api_of legacy_device) unpinned_session)).
Proof.
  exact (@detect_success_pins_parsed _ (SpecAPI.api_of legacy_device) unpinned_session
           (Some (PinVersion (version.final 1 45 9))) eq_refl).
Defined.

(** X11.  The pin is what the last successful [pin_version] parsed: after
    [pin_version(V1)], whether it succeeded or raised, a successful
    [pin_version(V2)] leaves the parsed [V2] as the pin, which
    [get_pinned_version] returns; neither call touches the [API] object. *)
Theorem pin_version_last_wins {A : Type}
  (self : Powerwall A) (V1 V2 : string) (P2 : version.Version) :
  version.parse V2 = Ok P2 ->
  let pinned := snd (pin_version V2 (snd (pin_version V1 self))) in
  pinned = mkPowerwall (Some (PinVersion P2)) (_api self)
  /\ get_pinned_version pinned = (Ok (Some (PinVersion P2)), pinned).
Proof.
  intros HP pinned. subst pinned.
  rewrite (pin_version_ok _ V2 P2 HP). cbn [snd].
  rewrite pin_version_eq. destruct (version.parse V1); split; reflexivity.
Qed.

(** X11, pinning 1.45.9 and then 1.46.0. *)
Lemma pin_version_last_wins_witness :
  snd (pin_version "1.46.0" (snd (pin_version "1.45.9" unpinned_session)))
  = mkPowerwall (Some (PinVersion (version.final 1 46 0))) (SpecAPI.mkState false).
Proof.
  exact (proj1 (pin_version_last_wins unpinned_session "1.45.9" "1.46.0"
                  (version.final 1 46 0) eq_refl)).
Defined.

(** X12.  After a successful [detect_and_pin_version] on a device that
    reports the version [V], [get_device_type] takes the path that this
    version selects: the two calls together issue the status request and
    then the request for the parsed [V], the dedicated endpoint when the
    device is older than 1.46.0. *)
Theorem detect_then_device_type `{Const} {A : Type} `{API A}
  (self : Powerwall (Traced A)) (m : gmap string Json) (V : string)
  (P : version.Version) (a' : A) :
  API_call API.get_status (fst (_api self)) = (Ok (JObj m), a') ->
  m !! "version" = Some (JStr V) ->
  version.parse V = Ok P ->
  trace_of (snd (get_device_type (snd (detect_and_pin_version self))))
  = trace_of self ++ [API.get_status; device_type_request (Some P)].
Proof.
  intros Hc Hm HP.
  rewrite get_device_type_trace, detect_and_pin_version_eq.
  unfold get_version, bind, lift. rewrite api_traced, Hc. cbn [fst snd].
  rewrite (assert_attribute_present m "version" _ (JStr V) Hm) by discriminate.
  cbn [parse_object]. rewrite HP. cbn [snd _pin_version _api trace_of].
  rewrite <- app_assoc. reflexivity.
Qed.

(** X12, on the sample legacy device: the second request goes to the
    dedicated endpoint. *)
Lemma detect_then_device_type_witness :
  trace_of (snd (@get_device_type sample_const _
                   (@Traced_API _ (SpecAPI.api_of legacy_device))
                   (snd (@detect_and_pin_version _
                           (@Traced_API _ (SpecAPI.api_of legacy_device))
                           (sample_powerwall legacy_device None)))))
  = [API.get_status; API.get_device_type].
Proof.
  exact (@detect_then_device_type sample_const _ (SpecAPI.api_of legacy_device)
           (sample_powerwall legacy_device None) {[ "version" := JStr "1.45.9" ]}
           "1.45.9" (version.final 1 45 9) (SpecAPI.mkState false)
           eq_refl eq_refl eq_refl).
Defined.

(** ** The ordering of versions is an order *)

Section Orders.

Lemma cmp_eq_r {X} (cmp : X -> X -> comparison) (O : CmpOrder cmp) (x y z : X) :
  cmp y z = Eq -> cmp x z = cmp x y.
Proof.
  intros E.
  assert (cmp z y = Eq) as E' by (rewrite (cmp_opp cmp O y z), E; reflexivity).
  rewrite (cmp_opp cmp O z x), (cmp_opp cmp O y x).
  rewrite (cmp_eq_l cmp O z y x E'). reflexivity.
Qed.

(** Greater-or-equal is transitive. *)
Lemma cmp_ge_trans {X} (cmp : X -> X -> comparison) (O : CmpOrder cmp) (x y z : X) :
  cmp x y <> Lt -> cmp y z <> Lt -> cmp x z <> Lt.
Proof.
  intros Hxy Hyz.
  destruct (cmp x y) eqn:Exy; [| contradiction |].
  - rewrite (cmp_eq_l cmp O x y z Exy). exact Hyz.
  - destruct (cmp y z) eqn:Eyz; [| contradiction |].
    + rewrite (cmp_eq_r cmp O x y z Eyz), Exy. discriminate.
    + assert (cmp z y = Lt) as L1 by (rewrite (cmp_opp cmp O y z), Eyz; reflexivity).
      assert (cmp y x = Lt) as L2 by (rewrite (cmp_opp cmp O x y), Exy; reflexivity).
      pose proof (cmp_lt_trans cmp O z y x L1 L2) as L.
      rewrite (cmp_opp cmp O z x), L. discriminate.
Qed.

Lemma order_N : CmpOrder N.compare.
Proof.
  split.
  - intros x y. apply N.compare_antisym.
  - intros x y z E. apply N.compare_eq in E. subst. reflexivity.
  - intros x y z. rewrite !N.compare_lt_iff. lia.
Qed.

(** Comparing through a projection. *)
Lemma order_on {X Y} (f : X -> Y) (cmp : Y -> Y -> comparison) :
  CmpOrder cmp -> CmpOrder (fun a b => cmp (f a) (f b)).
Proof.
  intros O. split.
  - intros x y. apply (cmp_opp cmp O).
  - intros x y z. apply (cmp_eq_l cmp O).
  - intros x y z. apply (cmp_lt_trans cmp O).
Qed.

Lemma order_lex {X} (c1 c2 : X -> X -> comparison) :
  CmpOrder c1 -> CmpOrder c2 ->
  CmpOrder (fun a b => version.lex (c1 a b) (c2 a b)).
Proof.
  intros O1 O2. split.
  - intros x y. rewrite (cmp_opp c1 O1 x y), (cmp_opp c2 O2 x y).
    destruct (c1 x y); reflexivity.
  - intros x y z E.
    destruct (c1 x y) eqn:E1; cbn in E; try discriminate E.
    rewrite (cmp_eq_l c1 O1 x y z E1), (cmp_eq_l c2 O2 x y z E). reflexivity.
  - intros x y z Lxy Lyz.
    destruct (c1 x y) eqn:E1; cbn in Lxy; try discriminate Lxy;
      destruct (c1 y z) eqn:E2; cbn in Lyz; try discriminate Lyz.
    + rewrite (cmp_eq_l c1 O1 x y z E1), E2. cbn.
      apply (cmp_lt_trans c2 O2 x y z); assumption.
    + rewrite (cmp_eq_l c1 O1 x y z E1), E2. reflexivity.
    + rewrite (cmp_eq_r c1 O1 x y z E2), E1. reflexivity.
    + rewrite (cmp_lt_trans c1 O1 x y z E1 E2). reflexivity.
Qed.

Lemma order_pair {X Y} (cx : X -> X -> comparison) (cy : Y -> Y -> comparison) :
  CmpOrder cx -> CmpOrder cy -> CmpOrder (version.cmp_pair cx cy).
Proof.
  intros Ox Oy.
  exact (order_lex _ _ (order_on fst cx Ox) (order_on snd cy Oy)).
Qed.

Lemma order_inf {X} (cmp : X -> X -> comparison) :
  CmpOrder cmp -> CmpOrder (version.cmp_inf cmp).
Proof.
  intros O. split.
  - intros [| x |] [| y |]; cbn; try reflexivity. apply (cmp_opp cmp O).
  - intros [| x |] [| y |] [| z |]; cbn; intros E; try discriminate E;
      try reflexivity. apply (cmp_eq_l cmp O); exact E.
  - intros [| x |] [| y |] [| z |]; cbn; intros L1 L2;
      try discriminate L1; try discriminate L2; try reflexivity.
    apply (cmp_lt_trans cmp O x y z); assumption.
Qed.

Lemma order_tuple {X} (cmp : X -> X -> comparison) :
  CmpOrder cmp -> CmpOrder (version.cmp_tuple cmp).
Proof.
  intros O. split.
  - intros a. induction a as [| x a IH]; intros [| y b]; cbn; try reflexivity.
    rewrite (cmp_opp cmp O x y), (IH b). destruct (cmp x y); reflexivity.
  - intros a. induction a as [| x a IH]; intros [| y b] [| z c]; cbn; intros E;
      try discriminate E; try reflexivity.
    destruct (cmp x y) eqn:E1; cbn in E; try discriminate E.
    rewrite (cmp_eq_l cmp O x y z E1), (IH b c E). reflexivity.
  - intros a. induction a as [| x a IH]; intros [| y b] [| z c]; cbn; intros L1 L2;
      try discriminate L1; try discriminate L2; try reflexivity.
    destruct (cmp x y) eqn:E1; cbn in L1; try discriminate L1;
      destruct (cmp y z) eqn:E2; cbn in L2; try discriminate L2.
    + rewrite (cmp_eq_l cmp O x y z E1), E2. cbn. apply (IH b c); assumption.
    + rewrite (cmp_eq_l cmp O x y z E1), E2. reflexivity.
    + rewrite (cmp_eq_r cmp O x y z E2), E1. reflexivity.
    + rewrite (cmp_lt_trans cmp O x y z E1 E2). reflexivity.
Qed.

Lemma order_ascii : CmpOrder Ascii.compare.
Proof. exact (order_on N_of_ascii N.compare order_N). Qed.

Lemma order_string : CmpOrder String.compare.
Proof.
  pose proof order_ascii as O. split.
  - intros a b. apply String.compare_antisym.
  - intros a b c E. apply String.compare_eq_iff in E. subst. reflexivity.
  - intros a. induction a as [| x a IH]; intros [| y b] [| z c]; cbn; intros L1 L2;
      try discriminate L1; try discriminate L2; try reflexivity.
    destruct (Ascii.compare x y) eqn:E1; try discriminate L1;
      destruct (Ascii.compare y z) eqn:E2; try discriminate L2.
    + rewrite (cmp_eq_l _ O x y z E1), E2. apply (IH b c); assumption.
    + rewrite (cmp_eq_l _ O x y z E1), E2. reflexivity.
    + rewrite (cmp_eq_r _ O x y z E2), E1. reflexivity.
    + rewrite (cmp_lt_trans _ O x y z E1 E2). reflexivity.
Qed.

Lemma order_key : CmpOrder version.cmp_key.
Proof.
  unfold version.cmp_key.
  apply (order_lex (fun a b => N.compare (version.key_epoch a) (version.key_epoch b))).
  { exact (order_on version.key_epoch _ order_N). }
  apply (order_lex (fun a b => version.cmp_tuple N.compare (version.key_release a)
                                                 (version.key_release b))).
  { exact (order_on version.key_release _ (order_tuple _ order_N)). }
  apply (order_lex (fun a b => version.cmp_inf _ (version.key_pre a) (version.key_pre b))).
  { apply (order_on version.key_pre). apply order_inf. apply order_pair.
    - exact (order_on version.pre_rank _ order_N).
    - exact order_N. }
  apply (order_lex (fun a b => version.cmp_inf _ (version.key_post a) (version.key_post b))).
  { exact (order_on version.key_post _ (order_inf _ order_N)). }
  apply (order_lex (fun a b => version.cmp_inf _ (version.key_dev a) (version.key_dev b))).
  { exact (order_on version.key_dev _ (order_inf _ order_N)). }
  apply (order_on version.key_local). apply order_inf. apply order_tuple.
  apply order_pair; [exact (order_inf _ order_N) | exact order_string].
Qed.

Lemma order_version : CmpOrder version.compare.
Proof. exact (order_on version._cmpkey _ order_key). Qed.

Lemma ge_trans (a b c : version.Version) :
  version.ge a b = true -> version.ge b c = true -> version.ge a c = true.
Proof.
  unfold version.ge. intros H1 H2.
  pose proof (cmp_ge_trans _ order_version a b c) as T.
  destruct (version.compare a b); try discriminate H1;
    destruct (version.compare b c); try discriminate H2;
    destruct (version.compare a c); try reflexivity;
    exfalso; apply T; try discriminate; reflexivity.
Qed.

End Orders.

(** ** The version gate follows the order *)

(** X13.  The gate of [get_device_type] is monotone in the pin: when a pin
    takes the live path, every pin that is greater or equal in the ordering
    of versions takes the live path too. *)
Theorem gate_is_monotone `{Const} {A : Type} `{API A}
  (a : Traced A) (P Q : version.Version) :
  version.ge Q P = true ->
  trace_of (snd (get_device_type (mkPowerwall (Some (PinVersion P)) a)))
  = snd a ++ [API.get_status] ->
  trace_of (snd (get_device_type (mkPowerwall (Some (PinVersion Q)) a)))
  = snd a ++ [API.get_status].
Proof.
  intros HQP. rewrite !get_device_type_trace. cbn [_pin_version trace_of _api].
  unfold device_type_request.
  destruct (version.ge P (version.final 1 46 0)) eqn:HP.
  - intros _. rewrite (ge_trans Q P _ HQP HP). reflexivity.
  - intros E. apply app_inv_head in E. discriminate E.
Qed.

(** X13, for the pins 1.46.0 and 1.47.2 on the sample legacy device. *)
Lemma gate_is_monotone_witness :
  trace_of (snd (@get_device_type sample_const _
                   (@Traced_API _ (SpecAPI.api_of legacy_device))
                   (mkPowerwall (Some (PinVersion (version.final 1 47 2)))
                                (SpecAPI.mkState false, []))))
  = [API.get_status].
Proof.
  exact (@gate_is_monotone sample_const _ (SpecAPI.api_of legacy_device)
           (SpecAPI.mkState false, []) (version.final 1 46 0) (version.final 1 47 2)
           eq_refl eq_refl).
Defined.

(** X14.  Pins that compare equal as versions, such as 1.46 and 1.46.0,
    make [get_device_type] issue the same request. *)
Theorem equal_pins_same_path `{Const} {A : Type} `{API A}
  (a : Traced A) (P Q : version.Version) :
  version.compare P Q = Eq ->
  trace_of (snd (get_device_type (mkPowerwall (Some (PinVersion P)) a)))
  = trace_of (snd (get_device_type (mkPowerwall (Some (PinVersion Q)) a))).
Proof.
  intros E. rewrite !get_device_type_trace. cbn [_pin_version trace_of _api].
  unfold device_type_request, version.ge.
  rewrite (cmp_eq_l _ order_version P Q _ E). reflexivity.
Qed.

(** X14, for the versions that 1.46 and 1.46.0 parse to. *)
Lemma equal_pins_same_path_witness :
  version.parse "1.46" = Ok (version.mkVersion 0 [1; 46]%N None None None None)
  /\ trace_of (snd (@get_device_type sample_const _
                      (@Traced_API _ (SpecAPI.api_of legacy_device))
                      (mkPowerwall
                         (Some (PinVersion
                                  (version.mkVersion 0 [1; 46]%N None None None None)))
                         (SpecAPI.mkState false, []))))
     = trace_of (snd (@get_device_type sample_const _
                        (@Traced_API _ (SpecAPI.api_of legacy_device))
                        (mkPowerwall (Some (PinVersion (version.final 1 46 0)))
                                     (SpecAPI.mkState false, [])))).
Proof.
  split; [reflexivity |].
  exact (@equal_pins_same_path sample_const _ (SpecAPI.api_of legacy_device)
           (SpecAPI.mkState false, [])
           (version.mkVersion 0 [1; 46]%N None None None None)
           (version.final 1 46 0) eq_refl).
Defined.

(** ** The pin matters to [get_device_type] only *)

Section PinBlind.
Context {A : Type}.

Lemma pin_blind_ret {X} (x : X) : pin_blind (A := A) (ret x).
Proof. intros p q a. split; reflexivity. Qed.

Lemma pin_blind_lift {X} (r : Result X) : pin_blind (A := A) (lift r).
Proof. intros p q a. split; reflexivity. Qed.

Lemma pin_blind_get_api : pin_blind (A := A) get_api.
Proof. intros p q a. split; reflexivity. Qed.

Lemma pin_blind_api `{API A} (c : API.Call) : pin_blind (api c).
Proof.
  intros p q a. unfold api. cbn [_api _pin_version].
  destruct (API_call c a). split; reflexivity.
Qed.

Lemma pin_blind_bind {X Y} (m : Method A X) (k : X -> Method A Y) :
  pin_blind m -> (forall x, pin_blind (k x)) -> pin_blind (bind m k).
Proof.
  intros Hm Hk p q a. unfold bind. destruct (Hm p q a) as [Hr Ha].
  destruct (m (mkPowerwall p a)) as [r1 [p1 a1]].
  destruct (m (mkPowerwall q a)) as [r2 [q1 a2]].
  cbn in Hr, Ha. subst r2 a2.
  destruct r1 as [x | e]; [apply Hk | split; reflexivity].
Qed.

Lemma pin_blind_for_each {X Y} (f : X -> Method A Y) (l : list X) :
  (forall x, pin_blind (f x)) -> pin_blind (for_each f l).
Proof.
  intros Hf. induction l as [| x l IH]; cbn [for_each].
  - apply pin_blind_ret.
  - apply pin_blind_bind; [apply Hf |].
    intros y. apply pin_blind_bind; [exact IH |].
    intros ys. apply pin_blind_ret.
Qed.

End PinBlind.

Create HintDb blind.
#[local] Hint Resolve pin_blind_ret pin_blind_lift pin_blind_get_api pin_blind_api
  : blind.

Ltac blind_step :=
  first
    [ apply pin_blind_bind; [| intros ?]
    | apply pin_blind_for_each; intros ?
    | solve [auto with blind]
    | match goal with
      | |- pin_blind (match ?x with _ => _ end) => destruct x
      end ].

Ltac blind := repeat blind_step.

(** X15.  The pin matters to [get_device_type] only: for every other
    operation, whether it raises and with what, and the [API] object it
    leaves behind, are the same whatever the pin holds. *)
Theorem pin_matters_to_device_type_only `{Const} {A : Type} `{API A}
  (o : Op) (p q : option Pin) (a : A) :
  o <> op_get_device_type ->
  outcome o (mkPowerwall p a) = outcome o (mkPowerwall q a)
  /\ _api (after o (mkPowerwall p a)) = _api (after o (mkPowerwall q a)).
Proof.
  intros Ho.
  assert (forall X (m : Method A X), pin_blind m ->
            raised (fst (m (mkPowerwall p a))) = raised (fst (m (mkPowerwall q a)))
            /\ _api (snd (m (mkPowerwall p a))) = _api (snd (m (mkPowerwall q a))))
    as Hblind.
  { intros X m Hm. destruct (Hm p q a) as [-> ->]. split; reflexivity. }
  destruct o; try contradiction; cbn [outcome after];
    try (apply Hblind; autounfold with methods; blind; fail).
  split; reflexivity.
Qed.

(** X15, for [get_charge] on the sample legacy device, without a pin and
    with the pin 1.45.9. *)
Lemma pin_matters_to_device_type_only_witness :
  @outcome sample_const _ (SpecAPI.api_of legacy_device) op_get_charge unpinned_session
  = @outcome sample_const _ (SpecAPI.api_of legacy_device) op_get_charge pinned_1_45_9.
Proof.
  refine (proj1 (@pin_matters_to_device_type_only sample_const _
                   (SpecAPI.api_of legacy_device) op_get_charge None
                   (Some (PinVersion (version.final 1 45 9))) (SpecAPI.mkState false) _)).
  discriminate.
Defined.

(** ** Parsing plain version strings *)

Section Dotted.
Import version.

Lemma digit_not_space (c : ascii) : is_digit c = true -> is_space c = false.
Proof.
  unfold is_digit, is_space. intros Hd.
  apply andb_true_iff in Hd. destruct Hd as [H1 H2].
  apply N.leb_le in H1. apply N.leb_le in H2.
  destruct (N.leb_spec 9 (code c)), (N.leb_spec (code c) 13),
    (N.leb_spec 28 (code c)), (N.leb_spec (code c) 32); cbn; try reflexivity; lia.
Qed.

Lemma digit_lower (c : ascii) : is_digit c = true -> lower c = c.
Proof.
  unfold is_digit, lower, is_upper. intros Hd.
  apply andb_true_iff in Hd. destruct Hd as [H1 H2].
  apply N.leb_le in H1. apply N.leb_le in H2.
  destruct (N.leb_spec 65 (code c)); cbn; [lia | reflexivity].
Qed.

Lemma digit_not_v (c : ascii) : is_digit c = true -> (code (lower c) =? 118)%N = false.
Proof.
  intros Hd. rewrite (digit_lower c Hd). unfold is_digit in Hd.
  apply andb_true_iff in Hd. destruct Hd as [H1 H2].
  apply N.leb_le in H2. apply N.eqb_neq. lia.
Qed.

Lemma decimal_digits (d : Decimal.uint) :
  all_chars is_digit (NilEmpty.string_of_uint d) = true.
Proof.
  induction d; cbn [NilEmpty.string_of_uint all_chars]; try reflexivity;
    rewrite IHd; reflexivity.
Qed.

Lemma int_acc_pos (d : Decimal.uint) (acc : positive) :
  int_acc (N.pos acc) (NilEmpty.string_of_uint d) = N.pos (Pos.of_uint_acc d acc).
Proof.
  revert acc.
  induction d; intros acc; cbn [NilEmpty.string_of_uint int_acc Pos.of_uint_acc];
    [reflexivity | ..];
    rewrite <- IHd; f_equal;
    match goal with |- context [digit_val ?c] =>
      let v := eval vm_compute in (digit_val c) in change (digit_val c) with v
    end; lia.
Qed.

Lemma int_acc_zero (d : Decimal.uint) :
  int_acc 0 (NilEmpty.string_of_uint d) = Pos.of_uint d.
Proof.
  induction d; cbn [NilEmpty.string_of_uint int_acc Pos.of_uint];
    [reflexivity | exact IHd | ..]; apply (int_acc_pos d).
Qed.

(** Reading a decimal numeral gives the number back, unless the numeral has
    more digits than [int] converts. *)
Lemma int_decimal (n : N) :
  int (decimal n)
  = if (digits n <=? int_max_str_digits)%N then Ok n else Err IntMaxStrDigits.
Proof.
  unfold int. fold (digits n).
  destruct (digits n <=? int_max_str_digits)%N; [| reflexivity].
  unfold decimal. rewrite int_acc_zero. f_equal. apply DecimalN.Unsigned.of_to.
Qed.

(** A decimal numeral starts with a digit and the others are digits too. *)
Lemma decimal_shape (n : N) :
  exists c r, decimal n = String c r
              /\ is_digit c = true
              /\ all_chars is_digit r = true.
Proof.
  pose proof (decimal_digits (N.to_uint n)) as Hdig. fold (decimal n) in Hdig.
  assert (decimal n <> EmptyString) as Hne.
  { unfold decimal. destruct n as [| p]; [discriminate |]. cbn [N.to_uint].
    pose proof (DecimalPos.Unsigned.to_uint_nonnil p) as Hp.
    destruct (Pos.to_uint p); try discriminate. contradiction. }
  destruct (decimal n) as [| c r]; [contradiction |].
  cbn [all_chars] in Hdig. apply andb_true_iff in Hdig. destruct Hdig as [Hc Hr].
  exists c, r. repeat split; assumption.
Qed.

Lemma append_cons (c : ascii) (s t : string) :
  String.append (String c s) t = String c (String.append s t).
Proof. reflexivity. Qed.

Lemma append_empty (t : string) : String.append EmptyString t = t.
Proof. reflexivity. Qed.

Lemma append_empty_r (s : string) : String.append s EmptyString = s.
Proof.
  induction s as [| c s IH]; [reflexivity |]. rewrite append_cons, IH. reflexivity.
Qed.

Lemma append_snoc (s t : string) (c : ascii) :
  String.append (String.append s (String c EmptyString)) t
  = String.append s (String c t).
Proof.
  induction s as [| d s IH]; [reflexivity |]. rewrite !append_cons, IH. reflexivity.
Qed.

Lemma span_digits (ds rest : string) :
  all_chars is_digit ds = true ->
  span is_digit (String.append ds (String "." rest)) = (ds, String "." rest).
Proof.
  induction ds as [| c ds IH]; cbn [all_chars]; intros Hd.
  - reflexivity.
  - apply andb_true_iff in Hd. destruct Hd as [Hc Hds].
    rewrite append_cons. cbn [span]. rewrite Hc, (IH Hds). reflexivity.
Qed.

Lemma release_loop_digits (acc : list string) (cur ds rest : string) :
  all_chars is_digit ds = true ->
  release_loop acc cur (String.append ds rest)
  = release_loop acc (String.append cur ds) rest.
Proof.
  revert cur.
  induction ds as [| c ds IH]; cbn [all_chars]; intros cur Hd.
  - rewrite append_empty, append_empty_r. reflexivity.
  - apply andb_true_iff in Hd. destruct Hd as [Hc Hds].
    rewrite append_cons. cbn [release_loop]. rewrite Hc.
    rewrite (IH _ Hds), append_snoc. reflexivity.
Qed.

Lemma release_loop_dot (acc : list string) (cur : string) (c : ascii) (r : string) :
  is_digit c = true ->
  release_loop acc cur (String "." (String c r))
  = release_loop (cur :: acc) (String c EmptyString) r.
Proof.
  intros Hc. cbn [release_loop].
  change (is_digit ".") with false. change (code "." =? 46)%N with true.
  cbn iota. rewrite Hc. reflexivity.
Qed.

Lemma release_loop_end (acc : list string) (cur ds : string) :
  all_chars is_digit ds = true ->
  release_loop acc cur ds = (rev (String.append cur ds :: acc), EmptyString).
Proof.
  intros Hd. rewrite <- (append_empty_r ds) at 1.
  rewrite (release_loop_digits acc cur ds EmptyString Hd). reflexivity.
Qed.

(** The pattern matches [major.minor.patch] with the three numerals as the
    release and no other group. *)
Lemma search_dotted (major minor patch : N) :
  search (dotted major minor patch)
  = Some (mkMatch None [decimal major; decimal minor; decimal patch]
                  None None None None None None None None).
Proof.
  unfold dotted.
  destruct (decimal_shape major) as (c1 & r1 & -> & Hc1 & Hr1).
  destruct (decimal_shape minor) as (c2 & r2 & -> & Hc2 & Hr2).
  destruct (decimal_shape patch) as (c3 & r3 & -> & Hc3 & Hr3).
  unfold search. rewrite !append_cons. cbn [lstrip].
  rewrite (digit_not_space c1 Hc1). cbn [opt_v]. rewrite (digit_not_v c1 Hc1).
  unfold opt_epoch. cbn [span]. rewrite Hc1, span_digits by exact Hr1.
  change (code "." =? 33)%N with false. cbn iota.
  unfold release_segment. rewrite Hc1.
  rewrite release_loop_digits by exact Hr1.
  rewrite release_loop_dot by exact Hc2.
  rewrite release_loop_digits by exact Hr2.
  rewrite release_loop_dot by exact Hc3.
  rewrite release_loop_end by exact Hr3.
  rewrite !append_cons, !append_empty.
  reflexivity.
Qed.

Lemma parse_dotted (major minor patch : N) :
  parse (dotted major minor patch)
  = if ((digits major <=? int_max_str_digits)
        && (digits minor <=? int_max_str_digits)
        && (digits patch <=? int_max_str_digits))%N
    then Ok (final major minor patch)
    else Err IntMaxStrDigits.
Proof.
  unfold parse, Version_init. rewrite search_dotted.
  cbn [g_epoch g_release g_pre_l g_pre_n g_post_l g_post_n1 g_post_n2 g_dev_l
       g_dev_n g_local and_then each _parse_letter_version _parse_local_version
       first_of].
  rewrite !int_decimal.
  destruct (digits major <=? int_max_str_digits)%N; [| reflexivity].
  destruct (digits minor <=? int_max_str_digits)%N; [| reflexivity].
  destruct (digits patch <=? int_max_str_digits)%N; reflexivity.
Qed.

End Dotted.

(** X16.  For all numbers [major], [minor] and [patch] whose decimal
    numerals have no more digits than [int] converts (4300), [pin_version]
    accepts the string [major.minor.patch] and pins that release;
    [get_device_type] then issues the status request of the live path if
    and only if (1, 46, 0) is at most (major, minor, patch) by major, then
    minor, then patch, and the request to the dedicated endpoint otherwise.
    When one of the numerals is longer, [pin_version] raises the
    [ValueError] of [int] and the object is left as it was. *)
Theorem pin_dotted_version `{Const} {A : Type} `{API A}
  (self : Powerwall (Traced A)) (major minor patch : N) :
  ((digits major <= version.int_max_str_digits
    /\ digits minor <= version.int_max_str_digits
    /\ digits patch <= version.int_max_str_digits)%N ->
   pin_version (dotted major minor patch) self
   = (Ok tt, mkPowerwall (Some (PinVersion (version.final major minor patch)))
                         (_api self))
   /\ (trace_of (snd (get_device_type (snd (pin_version (dotted major minor patch) self))))
       = trace_of self ++ [API.get_status]
       <-> triple_le (1, 46, 0)%N (major, minor, patch))
   /\ (trace_of (snd (get_device_type (snd (pin_version (dotted major minor patch) self))))
       = trace_of self ++ [API.get_device_type]
       <-> ~ triple_le (1, 46, 0)%N (major, minor, patch)))
  /\ (~ (digits major <= version.int_max_str_digits
         /\ digits minor <= version.int_max_str_digits
         /\ digits patch <= version.int_max_str_digits)%N ->
      pin_version (dotted major minor patch) self = (Err IntMaxStrDigits, self)).
Proof.
  pose proof (parse_dotted major minor patch) as Hparse.
  split.
  - intros (H1 & H2 & H3).
    apply N.leb_le in H1. apply N.leb_le in H2. apply N.leb_le in H3.
    rewrite H1, H2, H3 in Hparse. cbn [andb] in Hparse.
    rewrite (pin_version_ok self _ _ Hparse). split; [reflexivity |].
    rewrite get_device_type_trace. cbn [snd _pin_version trace_of _api].
    unfold device_type_request.
    pose proof (ge_final major minor patch 1 46 0) as Hge.
    destruct (version.ge (version.final major minor patch) (version.final 1 46 0)).
    + split; split; intros Hx.
      * apply Hge. reflexivity.
      * reflexivity.
      * apply app_inv_head in Hx. discriminate Hx.
      * exfalso. apply Hx, Hge. reflexivity.
    + split; split; intros Hx.
      * apply app_inv_head in Hx. discriminate Hx.
      * apply Hge in Hx. discriminate Hx.
      * intros Ht. apply Hge in Ht. discriminate Ht.
      * reflexivity.
  - intros Hlong. rewrite pin_version_eq, Hparse.
    destruct (N.leb_spec (digits major) version.int_max_str_digits);
      destruct (N.leb_spec (digits minor) version.int_max_str_digits);
      destruct (N.leb_spec (digits patch) version.int_max_str_digits);
      cbn [andb]; try reflexivity.
    exfalso. apply Hlong. repeat split; assumption.
Qed.

(** X16, for 1.46.1 on the sample legacy device. *)
Lemma pin_dotted_version_witness :
  (digits 1 <= version.int_max_str_digits
   /\ digits 46 <= version.int_max_str_digits
   /\ digits 1 <= version.int_max_str_digits)%N
  /\ pin_version (dotted 1 46 1) (sample_powerwall legacy_device None)
     = (Ok tt, mkPowerwall (Some (PinVersion (version.final 1 46 1)))
                           (SpecAPI.mkState false, [])).
Proof.
  assert (digits 1 <= version.int_max_str_digits
          /\ digits 46 <= version.int_max_str_digits
          /\ digits 1 <= version.int_max_str_digits)%N as Hd.
  { repeat split; apply N.leb_le; reflexivity. }
  split; [exact Hd |].
  exact (proj1 (proj1 (@pin_dotted_version sample_const _ (SpecAPI.api_of legacy_device)
                         (sample_powerwall legacy_device None) 1 46 1) Hd)).
Defined.
